(** * McMini: a shallow embedding of the checker's data structures

    The development follows the sources of the repository:
    - [src/hashtable.c]: the open-addressing hash table of the legacy
      checker (module [HashTable]);
    - [src/thread.c]: enabledness of thread operations (module [Thread]);
    - [src/transitions/cond/MCCondEnqueue.cpp]: dependency and
      co-enabledness of a condition-variable enqueue, with the entries
      that [dmtcp/src/mcmini/mcmini.cpp] registers for the mutex
      transitions (module [Transitions]);
    - [docs/design/src/mcmini/coordinator/coordinator.cpp] and
      [docs/design/src/mcmini/mcmini.cpp]: the coordinator, the address map
      and the transition callbacks (module [Coordinator]);
    - [dmtcp/src/mcmini/mcmini.cpp]: the initial program model and the
      command line (modules [Program] and [Cli]). *)

From Stdlib Require Import ZArith QArith Lia Lqa Ascii String.
From stdpp Require Import gmap strings pretty list.

(** ** Outcomes of C routines

    A C routine either returns, loops forever, or does what the language
    leaves undefined: an access to memory it does not own, a division by
    zero, an overflow of a signed integer.  The last two are kept apart so
    that no statement about a returned value is satisfied by a routine
    that never returns. *)

Inductive outcome (A : Type) : Type :=
| Done (a : A)
| Hangs
| Faults.
Arguments Done {A} a.
Arguments Hangs {A}.
Arguments Faults {A}.

Definition obind {A B} (m : outcome A) (f : A -> outcome B) : outcome B :=
  match m with
  | Done a => f a
  | Hangs => Hangs
  | Faults => Faults
  end.

Notation "'do*' x <- m ; k" := (obind m (fun x => k))
  (at level 10, x name, m at level 100, k at level 200).

(** ** The hash table of [src/hashtable.c]

    Allocation is taken to succeed, and [errno] is not modelled. *)

Module HashTable.
Local Open Scope Z_scope.

Definition UINT64_MAX : Z := 2 ^ 64 - 1.

(** Arithmetic on [uint64_t] and [size_t] wraps around modulo [2^64]. *)
Definition wrap64 (z : Z) : Z := z mod 2 ^ 64.

(** [struct hash_table_entry]; a [void *] is its address, [NULL] is 0. *)
Record hash_table_entry : Type := {
  valid : bool;
  key : Z;
  value : Z
}.

Definition NULL : Z := 0.

Definition hash_table_invalid_entry : hash_table_entry :=
  {| valid := false; key := 0; value := NULL |}.

(** [sizeof(hash_table_entry)] on an LP64 target: a padded [bool], a
    [uint64_t] and a pointer. *)
Definition sizeof_entry : Z := 24.

(** [struct hash_table].  [base] is [None] for a [NULL] pointer, otherwise
    the allocated array.  The [hasher] field is only read by the
    [_implicit] entry points, which are not modelled. *)
Record hash_table : Type := {
  count : Z;
  len : Z;
  base : option (list hash_table_entry)
}.

(** A [hash_table_ref] is a pointer: [None] is [NULL]. *)
Definition hash_table_ref : Type := option hash_table.

(** [hash_table_create], for a successful [malloc]. *)
Definition hash_table_create : hash_table_ref :=
  Some {| count := 0; len := 0; base := None |}.

Definition hash_key (key : Z) : Z :=
  let key := wrap64 (Z.lxor (Z.shiftr key 16) key * 0x45d9f3b) in
  let key := wrap64 (Z.lxor (Z.shiftr key 16) key * 0x45d9f3b) in
  Z.lxor (Z.shiftr key 16) key.

Definition hash_table_num_slots (ref : hash_table_ref) : Z :=
  match ref with
  | Some t => len t / sizeof_entry
  | None => UINT64_MAX
  end.

(** The remainder by zero slots is a division by zero. *)
Definition hash_table_map_key (ref : hash_table_ref) (key : Z) : outcome Z :=
  let hash_value := hash_key key in
  let num_entries := hash_table_num_slots ref in
  if num_entries =? 0 then Faults else Done (hash_value mod num_entries).

(** [ref->base[i]] as an rvalue and as an lvalue.  An index outside the
    allocation, or a [NULL] base, is an invalid access. *)
Definition read_slot (t : hash_table) (i : Z) : outcome hash_table_entry :=
  match base t with
  | Some l =>
      if (0 <=? i) && (i <? Z.of_nat (length l))
      then match l !! Z.to_nat i with
           | Some e => Done e
           | None => Faults
           end
      else Faults
  | None => Faults
  end.

Definition write_slot (t : hash_table) (i : Z) (e : hash_table_entry)
  : outcome hash_table :=
  match base t with
  | Some l =>
      if (0 <=? i) && (i <? Z.of_nat (length l))
      then Done {| count := count t; len := len t;
                   base := Some (<[Z.to_nat i := e]> l) |}
      else Faults
  | None => Faults
  end.

(** [INT_MAX], for the 32-bit [int] of the targets. *)
Definition INT_MAX : Z := 2 ^ 31 - 1.

(** The loop of [hash_table_rehash]: [n] iterations remain, [i] is the
    loop variable.  It is an [int] compared with a [uint64_t]: the
    conversion leaves a value that is not negative as it is, and [i++] at
    [INT_MAX] overflows a signed integer, which is undefined and counted
    as a fault. *)
Fixpoint rehash_loop (n : nat) (i : Z) (t : hash_table)
    (old_base : list hash_table_entry) : outcome hash_table :=
  match n with
  | O => Done t
  | S n' =>
      match old_base !! Z.to_nat i with
      | None => Faults
      | Some ent =>
          if valid ent
          then
            do* dest <- hash_table_map_key (Some t) (key ent);
            do* t' <- write_slot t dest ent;
            if i =? INT_MAX then Faults
            else rehash_loop n' (i + 1) t' old_base
          else
            if i =? INT_MAX then Faults
            else rehash_loop n' (i + 1) t old_base
      end
  end.

Definition hash_table_rehash (t : hash_table)
    (old_base : list hash_table_entry) : outcome hash_table :=
  match base t with
  | None => Done t
  | Some _ =>
      let entries := hash_table_num_slots (Some t) / 2 in
      rehash_loop (Z.to_nat entries) 0 t old_base
  end.

(** A table is well allocated when [len] is the size of its storage. *)
Definition well_allocated (t : hash_table) (l : list hash_table_entry)
  : Prop :=
  base t = Some l /\ len t = sizeof_entry * Z.of_nat (length l) /\ l <> [].

(** The first block of [hash_table_unforced_grow]: a table without storage
    gets one invalid slot. *)
Definition ensure_base (t : hash_table) : hash_table :=
  match base t with
  | None => {| count := count t; len := sizeof_entry;
               base := Some [hash_table_invalid_entry] |}
  | Some _ => t
  end.

Section WithRehashFactor.

(** The macro [REHASH_FACTOR] comes from [hashtable.h], which is not part
    of the sources at hand: it is a parameter of the model.  The source
    compares in [double]; the model compares the same quantities exactly. *)
Variable REHASH_FACTOR : Q.

Definition grow_needed (t : hash_table) : bool :=
  let fill := wrap64 (count t * sizeof_entry) in
  Qle_bool (inject_Z (len t) * REHASH_FACTOR) (inject_Z fill).

Definition hash_table_unforced_grow (t : hash_table) : outcome hash_table :=
  let t := ensure_base t in
  if grow_needed t then
    let old_len := len t in
    let new_len := wrap64 (2 * old_len) in
    match base t with
    | None => Faults
    | Some old_base =>
        let new_base :=
          replicate (Z.to_nat (new_len / sizeof_entry))
                    hash_table_invalid_entry in
        hash_table_rehash
          {| count := count t; len := wrap64 (len t * 2);
             base := Some new_base |}
          old_base
    end
  else Done t.

(** The probing loop shared by [hash_table_probe_get] and
    [hash_table_probe_set].  The loop body leaves the table unchanged and
    [best_match] cycles through the slots, so a loop that has not left
    after one full round never leaves: the fuel is the number of slots. *)
Fixpoint probe_loop (fuel : nat) (t : hash_table) (key0 : Z)
    (num_ents best_match : Z) : outcome (Z * bool) :=
  match fuel with
  | O => Hangs
  | S fuel' =>
      do* cur <- read_slot t best_match;
      if valid cur
      then if key cur =? key0
           then Done (best_match, true)
           else probe_loop fuel' t key0 num_ents
                           ((best_match + 1) mod num_ents)
      else Done (best_match, false)
  end.

Definition hash_table_probe_get (t : hash_table) (key0 : Z) : outcome Z :=
  do* best_match <- hash_table_map_key (Some t) key0;
  if count t =? 0 then Done best_match
  else
    let num_ents := hash_table_num_slots (Some t) in
    do* r <- probe_loop (Z.to_nat num_ents) t key0 num_ents best_match;
    if snd r then Done (fst r) else Done UINT64_MAX.

(** Returns the slot and the final value of [*replace], which the caller
    initialises to [false]. *)
Definition hash_table_probe_set (t : hash_table) (key0 : Z)
  : outcome (Z * bool) :=
  do* best_match <- hash_table_map_key (Some t) key0;
  if count t =? 0 then Done (best_match, false)
  else
    let num_ents := hash_table_num_slots (Some t) in
    probe_loop (Z.to_nat num_ents) t key0 num_ents best_match.

Definition hash_table_count (ref : hash_table_ref) : Z :=
  match ref with
  | None => wrap64 (-1)
  | Some t => count t
  end.

Definition hash_table_get (ref : hash_table_ref) (key0 : Z) : outcome Z :=
  match ref with
  | None => Done NULL
  | Some t =>
      match base t with
      | None => Done NULL
      | Some _ =>
          do* dest <- hash_table_probe_get t key0;
          if dest =? UINT64_MAX then Done NULL
          else do* e <- read_slot t dest; Done (value e)
      end
  end.

Definition hash_table_set (ref : hash_table_ref) (key0 : Z) (value0 : Z)
  : outcome hash_table_ref :=
  match ref with
  | None => Done None
  | Some t =>
      do* t1 <- hash_table_unforced_grow t;
      do* r <- hash_table_probe_set t1 key0;
      let '(dest, replace) := r in
      do* t2 <- write_slot t1 dest
                  {| valid := true; key := key0; value := value0 |};
      Done (Some (if replace then t2
                  else {| count := wrap64 (count t2 + 1); len := len t2;
                          base := base t2 |}))
  end.

(** The value returned by [hash_table_remove] on its main path is not
    defined by the source (the function falls off its end); only the
    effect on the table is modelled. *)
Definition hash_table_remove (ref : hash_table_ref) (key0 : Z)
  : outcome hash_table_ref :=
  match ref with
  | None => Done None
  | Some t =>
      match base t with
      | None => Done (Some t)
      | Some _ =>
          do* index <- hash_table_map_key (Some t) key0;
          do* t1 <- write_slot t index hash_table_invalid_entry;
          Done (Some {| count := wrap64 (count t1 - 1); len := len t1;
                        base := base t1 |})
      end
  end.

(** Slot [i] holds an entry of a key other than [k]. *)
Definition busy (t : hash_table) (k i : Z) : Prop :=
  exists cur, read_slot t i = Done cur /\ valid cur = true /\ key cur <> k.

(** Tables that a client can build through the public entry points. *)
Inductive reachable : hash_table_ref -> Prop :=
| reachable_create : reachable hash_table_create
| reachable_set r k v r' :
    reachable r -> hash_table_set r k v = Done r' -> reachable r'
| reachable_remove r k r' :
    reachable r -> hash_table_remove r k = Done r' -> reachable r'.

(** The entry for [key0] is stored in slot [i], which is not its home slot. *)
Definition displaced (ref : hash_table_ref) (key0 : Z) (i : Z) : Prop :=
  exists t l e home,
    ref = Some t /\ base t = Some l /\ l !! Z.to_nat i = Some e /\
    valid e = true /\ key e = key0 /\
    hash_table_map_key ref key0 = Done home /\ 0 <= i /\ i <> home.

End WithRehashFactor.

(** Three calls on a fresh table.  Keys 0 and 2 hash to slot 0 for every
    table of at most eight slots. *)
Definition table_one : hash_table_ref :=
  Some {| count := 1; len := 24;
          base := Some [ {| valid := true; key := 0; value := 100 |} ] |}.

Definition table_two : hash_table_ref :=
  Some {| count := 2; len := 48;
          base := Some [ {| valid := true; key := 0; value := 100 |};
                         {| valid := true; key := 2; value := 200 |} ] |}.

Definition table_two_removed : hash_table_ref :=
  Some {| count := 1; len := 48;
          base := Some [ hash_table_invalid_entry;
                         {| valid := true; key := 2; value := 200 |} ] |}.

Definition table_three : hash_table_ref :=
  Some {| count := 3; len := 96;
          base := Some [ {| valid := true; key := 2; value := 200 |};
                         {| valid := true; key := 0; value := 300 |};
                         hash_table_invalid_entry;
                         hash_table_invalid_entry ] |}.

End HashTable.


(** ** Thread operations of [src/thread.c] *)

Module Thread.

(** [TYPES_DECL(thread_operation, ...)] of [thread.h]. *)
Inductive thread_operation_type : Type :=
| THREAD_START
| THREAD_CREATE
| THREAD_JOIN
| THREAD_FINISH
| THREAD_TERMINATE_PROCESS.

(** [STATES_DECL(thread, ...)] of [thread.h]. *)
Inductive thread_state : Type :=
| THREAD_ALIVE
| THREAD_SLEEPING
| THREAD_DEAD.

(** [struct thread]: the fields that [thread.h] declares, and [is_alive],
    which [thread.c] reads and writes although the header at hand does not
    declare it.  Routines and arguments are addresses. *)
Record thread : Type := {
  tid : Z;
  owner : Z;
  arg : Z;
  start_routine : Z;
  state : thread_state;
  is_alive : bool
}.

(** [thread.c] reaches the target as [top->thread->is_alive]: the field is
    a pointer, [None] when it is [NULL]. *)
Record thread_operation : Type := {
  type : thread_operation_type;
  target : option thread
}.

(** [thread_operation_enabled(top, thread)]; both arguments are pointers. *)
Definition thread_operation_enabled (top : option thread_operation)
    (thread0 : option thread) : outcome bool :=
  match top, thread0 with
  | Some top, Some _ =>
      match type top with
      | THREAD_JOIN =>
          match target top with
          | Some th => Done (negb (is_alive th))
          | None => Faults
          end
      | THREAD_FINISH => Done false
      | _ => Done true
      end
  | _, _ => Done false
  end.

End Thread.

(** ** Transitions of the legacy checker
    ([src/transitions/cond/MCCondEnqueue.cpp]) *)

Module Transitions.

(** Visible objects, as far as the transitions read them.  The classes
    themselves ([MCMutex], [MCConditionVariable]) are not among the
    sources; [getObjectId] is what [MCCondEnqueue.cpp] calls on them. *)
Record MCThread : Type := { tid : Z }.

Record MCMutex : Type := { mutex_objid : Z }.

(** [mutex] is the mutex associated with the condition variable: [None]
    (a null pointer) until the first enqueue is applied. *)
Record MCConditionVariable : Type := {
  cond_objid : Z;
  mutex : option MCMutex
}.

(** Modelled from the spec: [operator==] of the visible objects is not
    among the sources; the spec identifies an object by its object ID. *)
Definition MCConditionVariable_eq (a b : MCConditionVariable) : bool :=
  (cond_objid a =? cond_objid b)%Z.

Definition MCMutex_eq (a b : option MCMutex) : bool :=
  match a, b with
  | Some a, Some b => (mutex_objid a =? mutex_objid b)%Z
  | _, _ => false
  end.

Definition MCThread_eq (a b : MCThread) : bool := (tid a =? tid b)%Z.

(** [MCCondEnqueue]: its thread, its condition variable and the mutex the
    caller passed. *)
Record MCCondEnqueue : Type := {
  thread : MCThread;
  conditionVariable : MCConditionVariable;
  enqueue_mutex : MCMutex
}.

Inductive mutex_variant : Type := mutex_init | mutex_lock | mutex_unlock.

Inductive thread_variant : Type :=
  thread_create | thread_start | thread_exit | thread_join.

(** The transition hierarchy by dynamic type: [MCMutexTransition] with its
    variants (the mutex is a pointer), the thread transitions with the
    thread they refer to, [MCCondEnqueue], and the other subclasses of
    [MCCondTransition]. *)
Inductive MCTransition : Type :=
| MCMutexTransition (v : mutex_variant) (thread0 : MCThread)
                    (mutex0 : option MCMutex)
| MCThreadTransition (v : thread_variant) (thread0 : MCThread)
                     (target : MCThread)
| MCCondEnqueueTransition (e : MCCondEnqueue)
| MCCondTransition (thread0 : MCThread) (cond : MCConditionVariable).

Definition MCMutexUnlock (thread0 : MCThread) (mutex0 : option MCMutex)
  : MCTransition :=
  MCMutexTransition mutex_unlock thread0 mutex0.

Section CondEnqueue.

(** [MCTransitionFactory::transitionsCoenabledCommon] is not among the
    sources: the methods of [MCCondEnqueue] are defined for any such
    function. *)
Variable transitionsCoenabledCommon : MCTransition -> MCTransition -> bool.

Definition MCCondEnqueue_coenabledWith (this : MCCondEnqueue)
    (other : MCTransition) : bool :=
  match other with
  | MCCondEnqueueTransition maybeCondWaitOperation =>
      negb (MCConditionVariable_eq
              (conditionVariable maybeCondWaitOperation)
              (conditionVariable this))
  | MCMutexTransition _ _ _ =>
      let unlockMutex :=
        MCMutexUnlock (thread this) (mutex (conditionVariable this)) in
      transitionsCoenabledCommon unlockMutex other
  | _ => true
  end.

Definition MCCondEnqueue_dependentWith (this : MCCondEnqueue)
    (other : MCTransition) : bool :=
  match other with
  | MCCondEnqueueTransition maybeCondOperation =>
      MCConditionVariable_eq (conditionVariable maybeCondOperation)
                             (conditionVariable this)
  | MCCondTransition _ cond =>
      MCConditionVariable_eq cond (conditionVariable this)
  | MCMutexTransition _ _ _ =>
      let unlockMutex :=
        MCMutexUnlock (thread this) (mutex (conditionVariable this)) in
      transitionsCoenabledCommon unlockMutex other
  | _ => false
  end.

End CondEnqueue.

(** The entries that [do_model_checking] registers for the mutex
    transitions ([dmtcp/src/mcmini/mcmini.cpp], lines 100 to 110): the
    dependency relation [dr] gets lock/init and lock/lock, the
    co-enabledness relation [cr] gets lock/unlock only. *)
Definition dr_registered (va vb : mutex_variant) : bool :=
  match va, vb with
  | mutex_lock, mutex_init | mutex_lock, mutex_lock => true
  | _, _ => false
  end.

Definition cr_registered (va vb : mutex_variant) : bool :=
  match va, vb with
  | mutex_lock, mutex_unlock => true
  | _, _ => false
  end.

(** Modelled from the spec: the relation classes of [classic_dpor] and the
    member functions that are registered are not among the sources.  An
    entry stands for the unordered pair (section 4.A).  A registered pair
    of mutex transitions is dependent when both are on the same mutex; a
    pair without an entry, such as lock/unlock, is independent.  For the
    thread transitions the entries are those of [thread_create] and
    [thread_join], filled in from the rows of the table. *)
Definition pair_depends (a b : MCTransition) : bool :=
  match a, b with
  | MCMutexTransition va _ ma, MCMutexTransition vb _ mb =>
      if dr_registered va vb || dr_registered vb va
      then MCMutex_eq ma mb
      else false
  | MCThreadTransition va _ ta, MCThreadTransition vb _ tb =>
      match va, vb with
      | thread_create, thread_start | thread_start, thread_create
      | thread_create, thread_join | thread_join, thread_create
      | thread_join, thread_exit | thread_exit, thread_join =>
          MCThread_eq ta tb
      | _, _ => false
      end
  | _, _ => false
  end.

(** Modelled from the spec: as for [pair_depends], the relation class and
    the registered member functions are not among the sources.  The one
    registered pair of mutex transitions, lock/unlock, is co-enabled by
    its row of the table, and a pair without an entry is co-enabled:
    lock/lock and lock/init have no entry in [cr]. *)
Definition pair_coenabled (a b : MCTransition) : bool :=
  match a, b with
  | MCMutexTransition va _ _, MCMutexTransition vb _ _ =>
      if cr_registered va vb || cr_registered vb va
      then true
      else true
  | MCThreadTransition va _ ta, MCThreadTransition vb _ tb =>
      match va, vb with
      | thread_create, thread_start | thread_start, thread_create
      | thread_create, thread_join | thread_join, thread_create =>
          negb (MCThread_eq ta tb)
      | _, _ => true
      end
  | _, _ => true
  end.

(** Modelled from the spec: [MCTransitionFactory::transitionsCoenabledCommon]
    is taken to compute the co-enabledness of the two transitions it is
    given, which for mutex and thread transitions is the table above. *)
Definition transitionsCoenabledCommon : MCTransition -> MCTransition -> bool :=
  pair_coenabled.

(** Modelled from the spec: the calls [a->dependentWith(b)] and
    [a->coenabledWith(b)], the first step of the double dispatch of
    section 9, in which the receiver decides.  For a cond-enqueue the
    methods of [MCCondEnqueue.cpp] answer.  The classes of the mutex and
    thread transitions are not among the sources: their methods are taken
    to answer by the table, which has no entry with a cond-enqueue. *)
Definition depends (a b : MCTransition) : bool :=
  match a with
  | MCCondEnqueueTransition e =>
      MCCondEnqueue_dependentWith transitionsCoenabledCommon e b
  | _ => pair_depends a b
  end.

Definition coenabled (a b : MCTransition) : bool :=
  match a with
  | MCCondEnqueueTransition e =>
      MCCondEnqueue_coenabledWith transitionsCoenabledCommon e b
  | _ => pair_coenabled a b
  end.

End Transitions.

(** ** The model of the redesigned checker *)

Module Model.

Definition objid_t : Type := Z.
Definition runner_id_t : Type := Z.

(** [objects::thread::state] and [objects::mutex::state_type]. *)
Inductive thread_state : Type := embryo | running | sleeping | exited.

Inductive mutex_state : Type := uninitialized | unlocked | locked.

Inductive visible_object_state : Type :=
| thread (s : thread_state)
| mutex (s : mutex_state).

(** The transitions that the callbacks and [do_model_checking] construct;
    the first argument is the executor. *)
Inductive transition : Type :=
| mutex_init (p : runner_id_t) (mut : objid_t)
| mutex_lock (p : runner_id_t) (mut : objid_t)
| mutex_unlock (p : runner_id_t) (mut : objid_t)
| thread_create (p : runner_id_t) (new_thread_id : runner_id_t)
| thread_exit (p : runner_id_t)
| thread_start (p : runner_id_t).

Definition get_executor (t : transition) : runner_id_t :=
  match t with
  | mutex_init p _ | mutex_lock p _ | mutex_unlock p _
  | thread_create p _ | thread_exit p | thread_start p => p
  end.

End Model.

(** ** The initial program model ([dmtcp/src/mcmini/mcmini.cpp]) *)

Module Program.
Import Model.
Local Open Scope Z_scope.

(** Modelled from the spec: [detached_state], [pending_transitions] and
    [program] are not among the sources.  Objects get dense IDs in order of
    first observation; a runner is a visible object that has a dense runner
    ID as well; [add-runner] appends; a program starts with an empty
    trace. *)
Record detached_state : Type := {
  objects : list visible_object_state;
  runner_to_obj : list objid_t
}.

Definition empty_detached_state : detached_state :=
  {| objects := []; runner_to_obj := [] |}.

Definition add_object (s : detached_state) (o : visible_object_state)
  : objid_t * detached_state :=
  (Z.of_nat (length (objects s)),
   {| objects := objects s ++ [o]; runner_to_obj := runner_to_obj s |}).

Definition add_runner (s : detached_state) (o : visible_object_state)
  : runner_id_t * detached_state :=
  let '(id, s') := add_object s o in
  (Z.of_nat (length (runner_to_obj s)),
   {| objects := objects s'; runner_to_obj := runner_to_obj s' ++ [id] |}).

Definition get_state_of_object (s : detached_state) (id : objid_t)
  : option visible_object_state :=
  if id <? 0 then None else objects s !! Z.to_nat id.

Definition get_state_of_runner (s : detached_state) (id : runner_id_t)
  : option visible_object_state :=
  if id <? 0 then None
  else match runner_to_obj s !! Z.to_nat id with
       | Some o => get_state_of_object s o
       | None => None
       end.

(** The IDs of the visible objects that are not runners. *)
Definition non_runner_objects (s : detached_state) : list objid_t :=
  filter (fun id => id ∉ runner_to_obj s)
         (Z.of_nat <$> seq 0 (length (objects s))).

Definition pending_transitions : Type := gmap runner_id_t transition.

Definition set_transition (p : pending_transitions) (t : transition)
  : pending_transitions :=
  <[get_executor t := t]> p.

Record program : Type := {
  state_of_program : detached_state;
  next_steps : pending_transitions;
  trace : list transition
}.

Definition make_program (s : detached_state) (p : pending_transitions)
  : program :=
  {| state_of_program := s; next_steps := p; trace := [] |}.

(** The first statements of [do_model_checking]: the state at [main], the
    first steps, and the program model built from them. *)
Definition main_thread_id : runner_id_t :=
  fst (add_runner empty_detached_state (thread running)).

Definition model_for_program_starting_at_main : program :=
  let state_of_program_at_main := empty_detached_state in
  let initial_first_steps : pending_transitions := ∅ in
  let '(main_thread_id, state_of_program_at_main) :=
    add_runner state_of_program_at_main (thread running) in
  let initial_first_steps :=
    set_transition initial_first_steps (thread_start main_thread_id) in
  make_program state_of_program_at_main initial_first_steps.

End Program.

(** ** The coordinator and the callbacks
    ([docs/design/src/mcmini/coordinator/coordinator.cpp],
     [docs/design/src/mcmini/mcmini.cpp]) *)

Module Coordinator.
Import Model.
Local Open Scope Z_scope.

(** The two exception classes that the sources throw. *)
Inductive exception : Type :=
| execution_exception (what : string)
| undefined_behavior_exception (what : string).

Inductive result (A : Type) : Type :=
| Returns (a : A)
| Throws (e : exception).
Arguments Returns {A} a.
Arguments Throws {A} e.

(** A [remote_address<void>] is the value of a pointer into the child. *)
Definition remote_address : Type := Z.

(** The mailbox contents, byte by byte.  The coordinator reads the
    variant tag from [cnts[0]]; the callbacks copy a pointer out of the
    first eight bytes. *)
Record runner_mailbox : Type := { cnts : list Z }.

Fixpoint little_endian (bytes : list Z) : Z :=
  match bytes with
  | [] => 0
  | b :: bytes' => b + 256 * little_endian bytes'
  end.

(** [memcpy_v(&remote, rmb.cnts, sizeof(void * ))]. *)
Definition read_pointer (rmb : runner_mailbox) : remote_address :=
  little_endian (take 8 (cnts rmb)).

Definition dquote : string := String (Ascii.ascii_of_nat 34) EmptyString.

Definition to_string (z : Z) : string := pretty z.

Section WithModel.

(** [model::invalid_objid], the program model and its
    [model_executing_runner], and [observe_runner] of the address map are
    declared but not defined in the sources: they are parameters. *)
Variable invalid_objid : objid_t.
Variable program : Type.
Variable model_executing_runner :
  program -> runner_id_t -> transition -> program.

(** [coordinator::system_address_mapping], the state behind a
    [model_to_system_map]. *)
Abbreviation address_map := (gmap remote_address objid_t).

Variable observe_runner :
  address_map -> remote_address -> visible_object_state ->
  (runner_id_t -> transition) -> runner_id_t * address_map.

Definition get_object_for_remote_process_handle (m : address_map)
    (handle : remote_address) : objid_t :=
  match m !! handle with
  | Some id => id
  | None => invalid_objid
  end.

Definition observe_remote_process_handle (m : address_map)
    (remote_process_visible_object_handle : remote_address)
    (fallback_initial_state : visible_object_state)
  : objid_t * address_map :=
  let existing_obj :=
    get_object_for_remote_process_handle
      m remote_process_visible_object_handle in
  if negb (existing_obj =? invalid_objid) then (existing_obj, m)
  else (invalid_objid, m).

(** The header declares these two under the names [get_model_of] and
    [observe_object]; [contains] is defined in the header. *)
Definition get_model_of := get_object_for_remote_process_handle.
Definition observe_object := observe_remote_process_handle.

Definition contains (m : address_map) (addr : remote_address) : bool :=
  negb (get_model_of m addr =? invalid_objid).

(** A transition callback: the executor, the mailbox and the address map;
    it returns a transition or null, or throws, and may update the map. *)
Definition transition_discovery_callback : Type :=
  runner_id_t -> runner_mailbox -> address_map ->
  result (option transition) * address_map.

Definition mutex_init_callback : transition_discovery_callback :=
  fun p rmb m =>
    let remote_mut := read_pointer rmb in
    let m :=
      if negb (contains m remote_mut)
      then snd (observe_object m remote_mut (mutex uninitialized))
      else m in
    let mut := get_model_of m remote_mut in
    (Returns (Some (mutex_init p mut)), m).

Definition mutex_lock_callback : transition_discovery_callback :=
  fun p rmb m =>
    let remote_mut := read_pointer rmb in
    if negb (contains m remote_mut)
    then (Throws (undefined_behavior_exception
                    "Attempting to lock an uninitialized mutex"), m)
    else
      let mut := get_model_of m remote_mut in
      (Returns (Some (mutex_lock p mut)), m).

Definition mutex_unlock_callback : transition_discovery_callback :=
  fun p rmb m =>
    let remote_mut := read_pointer rmb in
    if negb (contains m remote_mut)
    then (Throws (undefined_behavior_exception
                    "Attempting to lock an uninitialized mutex"), m)
    else
      let mut := get_model_of m remote_mut in
      (Returns (Some (mutex_unlock p mut)), m).

Definition thread_create_callback : transition_discovery_callback :=
  fun p rmb m =>
    let new_thread := read_pointer rmb in
    let '(new_thread_id, m) :=
      observe_runner m new_thread (thread embryo)
                     (fun id => thread_start id) in
    (Returns (Some (thread_create p new_thread_id)), m).

Definition thread_exit_callback : transition_discovery_callback :=
  fun p rmb m => (Returns (Some (thread_exit p)), m).

(** Modelled from the spec: the registry maps a variant tag to its
    callback; an unregistered tag yields a null callback. *)
Abbreviation transition_registry := (gmap Z transition_discovery_callback).

Definition register_transition (tr : transition_registry) (rttid : Z)
    (callback : transition_discovery_callback) : transition_registry :=
  <[rttid := callback]> tr.

Definition get_callback_for (tr : transition_registry) (rttid : Z)
  : option transition_discovery_callback :=
  tr !! rttid.

(** The registrations of [do_model_checking]; the tag values come from a
    header that is not among the sources. *)
Section Registry.
Variables MUTEX_INIT_TYPE MUTEX_LOCK_TYPE MUTEX_UNLOCK_TYPE
          THREAD_CREATE_TYPE THREAD_EXIT_TYPE : Z.

Definition do_model_checking_registry : transition_registry :=
  let tr : transition_registry := ∅ in
  let tr := register_transition tr MUTEX_INIT_TYPE mutex_init_callback in
  let tr := register_transition tr MUTEX_LOCK_TYPE mutex_lock_callback in
  let tr := register_transition tr MUTEX_UNLOCK_TYPE mutex_unlock_callback in
  let tr := register_transition tr THREAD_CREATE_TYPE thread_create_callback in
  let tr := register_transition tr THREAD_EXIT_TYPE thread_exit_callback in
  tr.

End Registry.

(** The handle of a child process: asked to execute a runner, it answers
    with the mailbox the runner has posted. *)
Record process : Type := {
  process_execute_runner : runner_id_t -> runner_mailbox
}.

(** The coordinator.  [current_process_handle] is [None] for a null
    handle.  The process source is only used by the constructor. *)
Record coordinator : Type := {
  current_program_model : program;
  runtime_transition_mapping : transition_registry;
  current_process_handle : option process;
  system_address_mapping : address_map
}.

Definition with_address_map (c : coordinator) (m : address_map)
  : coordinator :=
  {| current_program_model := current_program_model c;
     runtime_transition_mapping := runtime_transition_mapping c;
     current_process_handle := current_process_handle c;
     system_address_mapping := m |}.

Definition with_program_model (c : coordinator) (p : program) : coordinator :=
  {| current_program_model := p;
     runtime_transition_mapping := runtime_transition_mapping c;
     current_process_handle := current_process_handle c;
     system_address_mapping := system_address_mapping c |}.

Definition not_alive_message (runner_id : runner_id_t) : string :=
  "Failed to execute runner with id " +:+ dquote +:+ to_string runner_id
  +:+ dquote +:+ ": the process is not alive".

Definition unregistered_message (rttid : Z) : string :=
  "Execution resulted in a runner scheduled to execute the transition "
  +:+ "type with the RTTID '" +:+ to_string rttid
  +:+ "' but this identifier has not been registered before model checking "
  +:+ "began. Double check that the coordinator was properly configured "
  +:+ "before launch; otherwise, please report this as a bug in "
  +:+ "libmcmini.so with this message.".

Definition untranslated_message (runner_id : runner_id_t) : string :=
  "Failed to translate the data written into the mailbox of runner "
  +:+ to_string runner_id.

(** [coordinator::execute_runner].  The callbacks of [mcmini.cpp] take the
    executor as their first argument; it is the runner being executed. *)
Definition execute_runner (c : coordinator) (runner_id : runner_id_t)
  : result unit * coordinator :=
  match current_process_handle c with
  | None => (Throws (execution_exception (not_alive_message runner_id)), c)
  | Some handle =>
      let mb := process_execute_runner handle runner_id in
      let rttid := nth 0 (cnts mb) 0 in
      match get_callback_for (runtime_transition_mapping c) rttid with
      | None =>
          (Throws (execution_exception (unregistered_message rttid)), c)
      | Some callback_function =>
          match callback_function runner_id mb (system_address_mapping c) with
          | (Throws e, m) => (Throws e, with_address_map c m)
          | (Returns None, m) =>
              (Throws (execution_exception (untranslated_message runner_id)),
               with_address_map c m)
          | (Returns (Some pending_operation), m) =>
              let c := with_address_map c m in
              (Returns tt,
               with_program_model c
                 (model_executing_runner (current_program_model c)
                    runner_id pending_operation))
          end
      end
  end.

(** What the callback registered for the posted tag answers, when a child
    is alive and the tag is registered. *)
Definition callback_outcome (c : coordinator) (runner_id : runner_id_t)
  : option (result (option transition) * address_map) :=
  match current_process_handle c with
  | None => None
  | Some handle =>
      let mb := process_execute_runner handle runner_id in
      match get_callback_for (runtime_transition_mapping c)
                             (nth 0 (cnts mb) 0) with
      | None => None
      | Some callback_function =>
          Some (callback_function runner_id mb (system_address_mapping c))
      end
  end.

(** The three conditions under which [execute_runner] throws by itself. *)
Definition no_live_child (c : coordinator) : Prop :=
  current_process_handle c = None.

Definition unregistered_tag (c : coordinator) (runner_id : runner_id_t)
  : Prop :=
  exists handle,
    current_process_handle c = Some handle /\
    get_callback_for (runtime_transition_mapping c)
      (nth 0 (cnts (process_execute_runner handle runner_id)) 0) = None.

Definition callback_returns_null (c : coordinator) (runner_id : runner_id_t)
  : Prop :=
  exists m, callback_outcome c runner_id = Some (Returns None, m).

(** The state after the transition [t] has been handed to the program
    model, the callback having left the address map [m]. *)
Definition handed_over (c : coordinator) (runner_id : runner_id_t)
    (t : transition) (m : address_map) : coordinator :=
  with_program_model (with_address_map c m)
    (model_executing_runner (current_program_model c) runner_id t).

End WithModel.

Arguments current_program_model {program} c.
Arguments runtime_transition_mapping {program} c.
Arguments current_process_handle {program} c.
Arguments system_address_mapping {program} c.
Arguments with_address_map {program} c m.
Arguments with_program_model {program} c p.
Arguments execute_runner {program} model_executing_runner c runner_id.
Arguments callback_outcome {program} c runner_id.
Arguments no_live_child {program} c.
Arguments unregistered_tag {program} c runner_id.
Arguments callback_returns_null {program} c runner_id.
Arguments handed_over {program} model_executing_runner c runner_id t m.

(** A coordinator with the registrations of [do_model_checking] (tags 0 to
    4), an empty address map, and a live child whose runner posts a
    mutex-lock on an address in its mailbox.  The program model is kept as
    the list of the transitions handed to it. *)
Definition example_model_executing_runner (p : list transition)
    (runner_id : runner_id_t) (t : transition) : list transition :=
  p ++ [t].

Definition example_observe_runner (m : gmap remote_address objid_t)
    (a : remote_address) (s : visible_object_state)
    (f : runner_id_t -> transition)
  : runner_id_t * gmap remote_address objid_t :=
  (0, m).

Definition example_coordinator (tag : Z) : coordinator (list transition) :=
  {| current_program_model := [];
     runtime_transition_mapping :=
       do_model_checking_registry (-1) example_observe_runner 0 1 2 3 4;
     current_process_handle :=
       Some {| process_execute_runner :=
                 fun _ => {| cnts := [tag; 16; 0; 0; 0; 0; 0; 0] |} |};
     system_address_mapping := ∅ |}.

End Coordinator.

(** ** The command line ([main_cpp] of [dmtcp/src/mcmini/mcmini.cpp]) *)

Module Cli.
Local Open Scope Z_scope.

Definition nl : string := String (Ascii.ascii_of_nat 10) EmptyString.

(** The fields of [model::config] that [main_cpp] assigns while it reads
    the options. *)
Record config : Type := {
  max_thread_execution_depth : Z;
  record_target_executable_only : bool;
  checkpoint_period : Z;
  stop_at_first_deadlock : bool;
  target_trace_id : Z
}.

Inductive stream : Type := stdout | stderr.

(** What a run of the argument handling ends in: [exit(code)] after the
    given output, a use of a null or out-of-bounds argument pointer, or
    control going on with a value. *)
Inductive status (A : Type) : Type :=
| Exits (code : Z) (output : list (stream * string))
| Crashes
| Proceeds (a : A).
Arguments Exits {A} code output.
Arguments Crashes {A}.
Arguments Proceeds {A} a.

(** [cur_arg[0][0] == '-'] *)
Definition starts_with_dash (a : string) : bool :=
  match a with
  | String c _ => Ascii.eqb c "-"%char
  | EmptyString => false
  end.

Definition isdigit (c : ascii) : bool :=
  (48 <=? nat_of_ascii c)%nat && (nat_of_ascii c <=? 57)%nat.

(** [cur_arg[0][1] == c && isdigit(cur_arg[0][2])]; the character after
    the last one of a C string is the terminator, which is no digit. *)
Definition letter_then_digit (c : ascii) (a : string) : bool :=
  match a with
  | String _ (String c1 rest) =>
      Ascii.eqb c1 c &&
      match rest with
      | String c2 _ => isdigit c2
      | EmptyString => false
      end
  | _ => false
  end.

Inductive option_kind : Type :=
| opt_max_depth
| opt_record
| opt_m_digit
| opt_first_deadlock
| opt_print_at
| opt_p_digit
| opt_help
| opt_unrecognized.

(** The chain of comparisons in the body of the option loop. *)
Definition classify (a : string) : option_kind :=
  if String.eqb a "--max-depth-per-thread" || String.eqb a "-m"
  then opt_max_depth
  else if String.eqb a "--record" || String.eqb a "-r"
  then opt_record
  else if letter_then_digit "m"%char a
  then opt_m_digit
  else if String.eqb a "--first-deadlock" || String.eqb a "--first"
          || String.eqb a "-f"
  then opt_first_deadlock
  else if String.eqb a "--print-at-traceId" || String.eqb a "-p"
  then opt_print_at
  else if letter_then_digit "p"%char a
  then opt_p_digit
  else if String.eqb a "--help" || String.eqb a "-h"
  then opt_help
  else opt_unrecognized.

Definition usage : string :=
  "Usage: mcmini (experimental)" +:+ nl +:+
  "              [--record|-r <seconds>] " +:+ nl +:+
  "              [--max-depth-per-thread|-m <num>]" +:+ nl +:+
  "              [--first-deadlock|--first|-f]" +:+ nl +:+
  "              [--help|-h]" +:+ nl +:+
  "              target_executable" +:+ nl.

Definition illegal_value (option_name : string) : string :=
  option_name +:+ ": illegal value" +:+ nl.

Definition unrecognized_option (a : string) : string :=
  "mcmini: unrecognized option: " +:+ a +:+ nl.

Definition missing_target : string :=
  "*** Missing target_executable or no such file." +:+ nl +:+ nl.

Section WithLibc.

(** The C library and the file system: [strtoul(s, nullptr, 10)];
    [strtol(s, &endptr, 10)] with the text left at [endptr]; whether
    [stat] finds the file.  [default_config] is a freshly constructed
    [model::config], whose class is not among the sources. *)
Variable strtoul : string -> Z.
Variable strtol : string -> Z * string.
Variable stat : string -> bool.
Variable default_config : config.

(** [main] hands the [argv] of the process to [main_cpp].  The branch for
    [-p<digit>] reads [cur_arg[2]], which for the last argument is the word
    stored after the null terminator of [argv]: in a process, the first
    pointer of the environment.  [envp0] is the string that word points
    to, [None] when the word is null. *)
Variable envp0 : option string.

(** [cur_arg[2]] while [cur_arg[0]] is an argument, [rest] being what
    follows [cur_arg[0]]: the terminator when one argument follows, the
    word after the terminator when none does. *)
Definition cur_arg_2 (rest : list string) : option string :=
  match rest with
  | [] => envp0
  | [_] => None
  | _ :: v :: _ => Some v
  end.

(** The [while] loop of [main_cpp].  [cur_arg] is the rest of [argv], the
    terminating null pointer being the end of the list.  A null pointer
    handed to [strtoul] or [strtol] is counted as a crash. *)
Fixpoint option_loop (cur_arg : list string) (mcmini_config : config)
  : status (config * list string) :=
  match cur_arg with
  | [] => Proceeds (mcmini_config, [])
  | a :: rest =>
      if negb (starts_with_dash a) then Proceeds (mcmini_config, cur_arg)
      else
        match classify a with
        | opt_max_depth =>
            match rest with
            | [] => Crashes
            | v :: rest' =>
                let mcmini_config :=
                  {| max_thread_execution_depth := strtoul v;
                     record_target_executable_only :=
                       record_target_executable_only mcmini_config;
                     checkpoint_period := checkpoint_period mcmini_config;
                     stop_at_first_deadlock :=
                       stop_at_first_deadlock mcmini_config;
                     target_trace_id := target_trace_id mcmini_config |} in
                let '(n, endptr) := strtol v in
                if (n =? 0) || negb (String.eqb endptr EmptyString)
                then Exits 1 [(stderr, illegal_value "--max-depth-per-thread")]
                else option_loop rest' mcmini_config
            end
        | opt_record =>
            match rest with
            | [] => Crashes
            | v :: rest' =>
                option_loop rest'
                  {| max_thread_execution_depth :=
                       max_thread_execution_depth mcmini_config;
                     record_target_executable_only := true;
                     checkpoint_period := strtoul v;
                     stop_at_first_deadlock :=
                       stop_at_first_deadlock mcmini_config;
                     target_trace_id := target_trace_id mcmini_config |}
            end
        | opt_m_digit =>
            match rest with
            | [] => Crashes
            | v :: _ =>
                option_loop rest
                  {| max_thread_execution_depth := strtoul v;
                     record_target_executable_only :=
                       record_target_executable_only mcmini_config;
                     checkpoint_period := checkpoint_period mcmini_config;
                     stop_at_first_deadlock :=
                       stop_at_first_deadlock mcmini_config;
                     target_trace_id := target_trace_id mcmini_config |}
            end
        | opt_first_deadlock =>
            option_loop rest
              {| max_thread_execution_depth :=
                   max_thread_execution_depth mcmini_config;
                 record_target_executable_only :=
                   record_target_executable_only mcmini_config;
                 checkpoint_period := checkpoint_period mcmini_config;
                 stop_at_first_deadlock := true;
                 target_trace_id := target_trace_id mcmini_config |}
        | opt_print_at =>
            match rest with
            | [] => Crashes
            | v :: rest' =>
                let mcmini_config :=
                  {| max_thread_execution_depth :=
                       max_thread_execution_depth mcmini_config;
                     record_target_executable_only :=
                       record_target_executable_only mcmini_config;
                     checkpoint_period := checkpoint_period mcmini_config;
                     stop_at_first_deadlock :=
                       stop_at_first_deadlock mcmini_config;
                     target_trace_id := strtoul v |} in
                let '(n, endptr) := strtol v in
                if (n =? 0) || negb (String.eqb endptr EmptyString)
                then Exits 1 [(stderr, illegal_value "--print-at-traceId")]
                else option_loop rest' mcmini_config
            end
        | opt_p_digit =>
            match cur_arg_2 rest with
            | Some v =>
                option_loop rest
                  {| max_thread_execution_depth :=
                       max_thread_execution_depth mcmini_config;
                     record_target_executable_only :=
                       record_target_executable_only mcmini_config;
                     checkpoint_period := checkpoint_period mcmini_config;
                     stop_at_first_deadlock :=
                       stop_at_first_deadlock mcmini_config;
                     target_trace_id := strtoul v |}
            | None => Crashes
            end
        | opt_help => Exits 1 [(stderr, usage)]
        | opt_unrecognized => Exits 1 [(stdout, unrecognized_option a)]
        end
  end.

(** [main_cpp] up to the check of the target executable.  [argv] holds
    [argc] strings, the program name first.  [Proceeds] stands for control
    reaching the statements after that check, with the configuration read
    so far and the target followed by its arguments. *)
Definition main_cpp (argv : list string) : status (config * list string) :=
  match argv with
  | [] => Crashes
  | _ :: args =>
      let cur_arg :=
        if (Z.of_nat (length argv) =? 1) then ["--help"%string] else args in
      match option_loop cur_arg default_config with
      | Proceeds (mcmini_config, cur_arg) =>
          match cur_arg with
          | [] => Exits 1 [(stderr, missing_target)]
          | target_executable :: _ =>
              if negb (stat target_executable)
              then Exits 1 [(stderr, missing_target)]
              else Proceeds (mcmini_config, cur_arg)
          end
      | Exits code output => Exits code output
      | Crashes => Crashes
      end
  end.

End WithLibc.

(** A C library that parses no number and a file system without files,
    for running [main_cpp] on concrete command lines; a file system in
    which every name is a file; the first string of an environment. *)
Definition example_strtoul (s : string) : Z := 0.
Definition example_strtol (s : string) : Z * string := (0, s).
Definition example_stat (s : string) : bool := false.
Definition example_envp0 : option string := Some "SHELL=/bin/sh"%string.
Definition example_config : config :=
  {| max_thread_execution_depth := 0;
     record_target_executable_only := false;
     checkpoint_period := 0;
     stop_at_first_deadlock := false;
     target_trace_id := 0 |}.

End Cli.


(** ** Invariants of the hash table *)

Module HashTableInvariant.
Import HashTable.
Local Open Scope Z_scope.

(** The number of valid entries in the storage. *)
Definition occupied (l : list hash_table_entry) : Z :=
  Z.of_nat (length (List.filter valid l)).

(** What [hash_table_create] establishes and [hash_table_set] keeps: a
    table without storage holds nothing; otherwise [len] is the size of the
    storage and [count] lies between the number of valid entries and the
    number of slots. *)
Definition sane (t : hash_table) : Prop :=
  match base t with
  | None => count t = 0
  | Some l =>
      well_allocated t l /\ occupied l <= count t <= Z.of_nat (length l)
  end.

Definition b2z (b : bool) : Z := if b then 1 else 0.

End HashTableInvariant.

(** ** Thread records of [src/thread.c] *)

Module ThreadOps.
Import Thread.

(** [pthread_equal] on the two thread identifiers. *)
Definition pthread_equal (a b : Z) : bool := (a =? b)%Z.

(** [thread_alloc()] is defined by [MEMORY_ALLOC_DEF_DECL], a macro that is
    not among the sources: what it returns is an argument of the two
    constructors, [None] for [NULL] and otherwise the block with the
    contents it has when it is handed out.

    [thread_create(pthread)] assigns four fields and leaves [tid] and
    [state] as they are in the block. *)
Definition thread_create (thread_alloc : option thread) (pthread : Z)
  : option thread :=
  match thread_alloc with
  | None => None
  | Some block =>
      Some {| tid := tid block; owner := pthread; arg := 0;
              start_routine := 0; state := state block;
              is_alive := true |}
  end.

(** [thread_copy(other)] reads [other] without a null check, and copies
    the same four fields. *)
Definition thread_copy (thread_alloc : option thread)
    (other : option thread) : outcome (option thread) :=
  match thread_alloc with
  | None => Done None
  | Some block =>
      match other with
      | Some o =>
          Done (Some {| tid := tid block; owner := owner o; arg := arg o;
                        start_routine := start_routine o;
                        state := state block;
                        is_alive := is_alive o |})
      | None => Faults
      end
  end.

Definition threads_equal (t1 t2 : option thread) : bool :=
  match t1, t2 with
  | None, None => true
  | None, Some _ => false
  | Some _, None => false
  | Some a, Some b => pthread_equal (owner a) (owner b)
  end.

End ThreadOps.

(** ** The thread object of [src/objects/MCThread.h] *)

Module ThreadObject.

Inductive MCThreadState : Type := embryo | alive | sleeping | dead.

Record MCThreadShadow : Type := {
  arg : Z;
  startRoutine : Z;
  systemIdentity : Z;
  state : MCThreadState
}.

(** The constructor of [MCThreadShadow]. *)
Definition MCThreadShadow_new (arg0 startRoutine0 systemIdentity0 : Z)
  : MCThreadShadow :=
  {| arg := arg0; startRoutine := startRoutine0;
     systemIdentity := systemIdentity0; state := embryo |}.

(** [MCThread]; [objectId] is the identifier kept by the base class
    [MCVisibleObject]. *)
Record MCThread : Type := {
  objectId : Z;
  threadShadow : MCThreadShadow;
  _hasEncounteredProgressGoal : bool;
  _maybeStarved : bool;
  tid : Z
}.

(** [MCThread(tid, arg, startRoutine, systemIdentity)]; [id] is the
    identifier that the default constructor of the base class hands out. *)
Definition MCThread_new (id tid0 arg0 startRoutine0 systemIdentity0 : Z)
  : MCThread :=
  {| objectId := id;
     threadShadow := MCThreadShadow_new arg0 startRoutine0 systemIdentity0;
     _hasEncounteredProgressGoal := false;
     _maybeStarved := false;
     tid := tid0 |}.

(** The copy constructor: it names the object ID, the shadow, the thread
    ID and [_maybeStarved]; [_hasEncounteredProgressGoal] takes its default
    member initializer. *)
Definition MCThread_copy (thread : MCThread) : MCThread :=
  {| objectId := objectId thread;
     threadShadow := threadShadow thread;
     _hasEncounteredProgressGoal := false;
     _maybeStarved := _maybeStarved thread;
     tid := tid thread |}.

Definition markThreadAsLive (this : MCThread) : MCThread :=
  {| objectId := objectId this;
     threadShadow := threadShadow this;
     _hasEncounteredProgressGoal := _hasEncounteredProgressGoal this;
     _maybeStarved := false;
     tid := tid this |}.

Definition markThreadAsMaybeStarved (this : MCThread) : MCThread :=
  {| objectId := objectId this;
     threadShadow := threadShadow this;
     _hasEncounteredProgressGoal := _hasEncounteredProgressGoal this;
     _maybeStarved := true;
     tid := tid this |}.

Definition isThreadStarved (this : MCThread) : bool :=
  _maybeStarved this && negb (_hasEncounteredProgressGoal this).

End ThreadObject.

(** ** Reading a cond-enqueue from shared memory
    ([MCReadCondEnqueue] of [src/transitions/cond/MCCondEnqueue.cpp]) *)

Module CondEnqueueRead.
Import Transitions.

(** What the child has written: the addresses of the condition variable
    and of the mutex, and the thread that ran. *)
Record MCSharedMemoryConditionVariable : Type := {
  shm_cond : Z;
  shm_mutex : Z
}.

Record MCSharedTransition : Type := { executor : Z }.

(** The function either reports undefined behavior or returns the
    transition.  The macro [MC_REPORT_UNDEFINED_BEHAVIOR_ON_FAIL] is not
    among the sources: when its condition fails it reports the message and
    the function goes no further. *)
Inductive read_result : Type :=
| Reported (message : string)
| Read (transition : MCCondEnqueue).

Section WithState.

(** The lookups of [MCState] and [MCConditionVariable::isDestroyed] are
    not among the sources: they are parameters. *)
Variable getConditionVariableWithSystemIdentity :
  Z -> option MCConditionVariable.
Variable getMutexWithSystemIdentity : Z -> option MCMutex.
Variable getThreadWithId : Z -> MCThread.
Variable isDestroyed : MCConditionVariable -> bool.

Definition MCReadCondEnqueue (shmTransition : MCSharedTransition)
    (shmData : MCSharedMemoryConditionVariable) : read_result :=
  let condThatExists :=
    getConditionVariableWithSystemIdentity (shm_cond shmData) in
  let mutexThatExists := getMutexWithSystemIdentity (shm_mutex shmData) in
  match condThatExists with
  | None =>
      Reported
        "Attempting to wait on a condition variable that is uninitialized"
  | Some cond =>
      match mutexThatExists with
      | None =>
          Reported ("Attempting to wait on a condition variable with an "
                    +:+ "uninitialized mutex")
      | Some mutex0 =>
          if isDestroyed cond
          then Reported
                 "Attempting to wait on a destroyed condition variable"
          else
            let threadThatRanId := executor shmTransition in
            let mutexAssociatedWithConditionVariable := mutex cond in
            let accepted :=
              match mutexAssociatedWithConditionVariable with
              | Some _ =>
                  MCMutex_eq (Some mutex0)
                             mutexAssociatedWithConditionVariable
              | None => true
              end in
            if accepted
            then
              let threadThatRan := getThreadWithId threadThatRanId in
              Read {| thread := threadThatRan;
                      conditionVariable := cond;
                      enqueue_mutex := mutex0 |}
            else
              Reported
                ("A mutex has already been associated with this condition "
                 +:+ "variable. Attempting to use another mutex with the "
                 +:+ "same condition variable is undefined")
      end
  end.

End WithState.

End CondEnqueueRead.

(** ** The shape of the registered callbacks *)

Module CallbackShape.
Import Model Coordinator.

(** A callback of the registry returns a transition or throws the
    undefined-behavior error. *)
Definition well_behaved (cb : transition_discovery_callback) : Prop :=
  forall (p : runner_id_t) (rmb : runner_mailbox)
         (m : gmap remote_address objid_t),
    (exists t m', cb p rmb m = (Returns (Some t), m')) \/
    (exists what m',
        cb p rmb m = (Throws (undefined_behavior_exception what), m')).

End CallbackShape.

(** ** [main_cpp] after the check of the target executable *)

Module CliTarget.
Import Cli.
Local Open Scope Z_scope.

Definition called_on_mcmini : string :=
  nl +:+ "*** McMini being called on 'mcmini'.  This doesn't work." +:+ nl.

(** Where [main_cpp] hands over: [do_recording] or [do_model_checking],
    with the configuration and the target executable. *)
Inductive mode : Type :=
| do_recording (mcmini_config : config) (target_executable : string)
| do_model_checking (mcmini_config : config) (target_executable : string).

Fixpoint string_drop (n : nat) (s : string) : string :=
  match n, s with
  | O, _ => s
  | S n', String _ s' => string_drop n' s'
  | S _, EmptyString => EmptyString
  end.

Section WithMemory.

(** Whether plain [char] is signed is left to the implementation. *)
Variable char_is_signed : bool.

(** The bytes around the name of the target are not the program's own:
    [outside off] is the C string found at [cur_arg[0] + off] for an offset
    outside the name, [None] when that address cannot be read. *)
Variable outside : Z -> option string.

(** Conversion of a [size_t] value to [char]. *)
Definition to_char (z : Z) : Z :=
  if char_is_signed then (z + 128) mod 256 - 128 else z mod 256.

(** [strlen(cur_arg[0]) - strlen("mcmini") - 1], computed in [size_t]; the
    test [>= 0] is made on that unsigned value. *)
Definition self_check_idx (target_executable : string) : Z :=
  let n := Z.of_nat (String.length target_executable) in
  let d := (n - 6 - 1) mod 2 ^ 64 in
  to_char (if 0 <=? d then d else n).

(** The C string at [s + idx]: a suffix of [s] while the pointer stays
    inside [s], its terminator included. *)
Definition string_at (s : string) (idx : Z) : option string :=
  if (0 <=? idx) && (idx <=? Z.of_nat (String.length s))
  then Some (string_drop (Z.to_nat idx) s)
  else outside idx.

(** The statements of [main_cpp] that follow the check of the target:
    [cur_arg] starts at the target executable. *)
Definition main_cpp_run (mcmini_config : config) (cur_arg : list string)
  : status mode :=
  match cur_arg with
  | [] => Crashes
  | target_executable :: _ =>
      let idx := self_check_idx target_executable in
      let hand_over :=
        if record_target_executable_only mcmini_config
        then do_recording mcmini_config target_executable
        else do_model_checking mcmini_config target_executable in
      if String.eqb target_executable "mcmini"
      then Exits 1 [(stderr, called_on_mcmini)]
      else
        match string_at target_executable idx with
        | None => Crashes
        | Some tail =>
            if String.eqb tail "/mcmini"
            then Exits 1 [(stderr, called_on_mcmini)]
            else Proceeds hand_over
        end
  end.

End WithMemory.

(** The options whose branch reads [cur_arg[1]]. *)
Definition reads_next (k : option_kind) : bool :=
  match k with
  | opt_max_depth | opt_record | opt_m_digit | opt_print_at => true
  | _ => false
  end.

(** The bytes before the name of the first argument of a process: the
    name of the program and its terminator.  For a program started as
    [mcmini], the C string two bytes before the name is its last
    letter. *)
Definition example_outside (off : Z) : option string :=
  if off =? -1 then Some EmptyString
  else if off =? -2 then Some "i"%string
  else None.

End CliTarget.
(** * Properties *)

(** ** The hash table *)

Section HashTableFacts.
Import HashTable.
Local Open Scope Z_scope.

Lemma grow_needed_spec (F : Q) (t : hash_table) :
  grow_needed F t = true <->
  (inject_Z (len t) * F <= inject_Z (wrap64 (count t * sizeof_entry)))%Q.
Proof. unfold grow_needed. apply Qle_bool_iff. Qed.

(** The growth test is the only place where the factor is read. *)
Lemma hash_table_set_factor (F F' : Q) (t : hash_table) (k v : Z) :
  grow_needed F (ensure_base t) = grow_needed F' (ensure_base t) ->
  hash_table_set F (Some t) k v = hash_table_set F' (Some t) k v.
Proof.
  intros H. unfold hash_table_set, hash_table_unforced_grow.
  now rewrite H.
Qed.

(** A table without occupied entries does not grow. *)
Lemma grow_needed_empty (F : Q) (t : hash_table) :
  (0 < F)%Q -> count t = 0 -> 0 < len t -> grow_needed F t = false.
Proof.
  intros HF Hc Hl. apply not_true_is_false. rewrite grow_needed_spec, Hc.
  change (wrap64 (0 * sizeof_entry)) with 0.
  intros Hle. apply Qle_not_lt in Hle. apply Hle.
  apply Qmult_lt_0_compat; [|exact HF].
  unfold Qlt, inject_Z; simpl. lia.
Qed.

(** A table whose entries fill its storage grows. *)
Lemma grow_needed_full (F : Q) (t : hash_table) :
  (F <= 1)%Q -> 0 <= len t -> wrap64 (count t * sizeof_entry) = len t ->
  grow_needed F t = true.
Proof.
  intros HF Hl Hc. rewrite grow_needed_spec, Hc.
  assert (H0 : (0 <= inject_Z (len t))%Q) by (unfold Qle, inject_Z; simpl; lia).
  generalize dependent (inject_Z (len t)). intros x Hx. nra.
Qed.

Section Scenario.
Variable F : Q.
Hypothesis F_pos : (0 < F)%Q.
Hypothesis F_le_1 : (F <= 1)%Q.

Lemma set_first : hash_table_set F hash_table_create 0 100 = Done table_one.
Proof.
  unfold hash_table_create.
  rewrite (hash_table_set_factor F (1 # 2)); [reflexivity|].
  rewrite grow_needed_empty; [reflexivity | assumption | reflexivity | reflexivity].
Qed.

Lemma set_second : hash_table_set F table_one 2 200 = Done table_two.
Proof.
  unfold table_one.
  rewrite (hash_table_set_factor F (1 # 2)); [reflexivity|].
  rewrite grow_needed_full; [reflexivity | assumption | discriminate | reflexivity].
Qed.

Lemma set_third : hash_table_set F table_two 0 300 = Done table_three.
Proof.
  unfold table_two.
  rewrite (hash_table_set_factor F (1 # 2)); [reflexivity|].
  rewrite grow_needed_full; [reflexivity | assumption | discriminate | reflexivity].
Qed.

Lemma reachable_table_two : reachable F table_two.
Proof.
  eapply reachable_set; [|exact set_second].
  eapply reachable_set; [|exact set_first].
  constructor.
Qed.

End Scenario.

Lemma num_slots_well_allocated (t : hash_table)
    (l : list hash_table_entry) :
  well_allocated t l ->
  hash_table_num_slots (Some t) = Z.of_nat (length l) /\
  0 < Z.of_nat (length l).
Proof.
  intros (Hb & Hl & Hne). split.
  - unfold hash_table_num_slots, sizeof_entry in *. rewrite Hl.
    rewrite Z.mul_comm. apply Z.div_mul. discriminate.
  - destruct l; [congruence | simpl; lia].
Qed.

Lemma map_key_well_allocated (t : hash_table) (l : list hash_table_entry)
    (k : Z) :
  well_allocated t l ->
  hash_table_map_key (Some t) k
  = Done (hash_key k mod Z.of_nat (length l)).
Proof.
  intros H. destruct (num_slots_well_allocated t l H) as [Hn Hpos].
  unfold hash_table_map_key. rewrite Hn.
  destruct (Z.eqb_spec (Z.of_nat (length l)) 0); [lia | reflexivity].
Qed.

Lemma write_slot_home (t : hash_table) (l : list hash_table_entry)
    (h : Z) (e : hash_table_entry) :
  well_allocated t l ->
  write_slot t (h mod Z.of_nat (length l)) e =
  Done {| count := count t; len := len t;
          base := Some (<[Z.to_nat (h mod Z.of_nat (length l)) := e]> l) |}.
Proof.
  intros H. destruct (num_slots_well_allocated t l H) as [Hn Hpos].
  destruct H as (Hb & _). unfold write_slot. rewrite Hb.
  pose proof (Z.mod_pos_bound h (Z.of_nat (length l)) Hpos) as [H1 H2].
  apply Z.leb_le in H1. apply Z.ltb_lt in H2. now rewrite H1, H2.
Qed.

(** Fuel only bounds the probing loop: a result obtained with some fuel is
    the result with any larger fuel. *)
Lemma probe_loop_more_fuel (n : nat) :
  forall (m : nat) (t : hash_table) (k num_ents best : Z) (r : Z * bool),
    (n <= m)%nat ->
    probe_loop n t k num_ents best = Done r ->
    probe_loop m t k num_ents best = Done r.
Proof.
  induction n as [|n IH]; intros m t k num_ents best r Hle H.
  - discriminate H.
  - destruct m as [|m]; [lia|]. simpl in *.
    destruct (read_slot t best) as [cur| |]; simpl in *; try discriminate H.
    destruct (valid cur); [|exact H].
    destruct (key cur =? k); [exact H|].
    apply IH; [lia | exact H].
Qed.

(** *** The fuel of the probing loop is enough

    If the loop has not stopped after as many rounds as there are slots,
    every slot is occupied by another key, and no amount of fuel makes it
    stop. *)

Lemma read_slot_returns_or_faults (t : hash_table) (i : Z) :
  read_slot t i <> Hangs.
Proof.
  unfold read_slot. destruct (base t) as [l|]; [|discriminate].
  destruct ((0 <=? i) && (i <? Z.of_nat (length l))); [|discriminate].
  destruct (l !! Z.to_nat i); discriminate.
Qed.

Lemma probe_loop_hangs_busy (n : nat) :
  forall (t : hash_table) (k num_ents b : Z),
    0 <= b < num_ents ->
    probe_loop n t k num_ents b = Hangs ->
    forall j : nat, (j < n)%nat ->
      busy t k ((b + Z.of_nat j) mod num_ents).
Proof.
  induction n as [|n IH]; intros t k num_ents b Hb H j Hj; [lia|].
  cbn [probe_loop] in H.
  destruct (read_slot t b) as [cur| |] eqn:R; cbn [obind] in H;
    [| now apply read_slot_returns_or_faults in R | discriminate H].
  destruct (valid cur) eqn:V; [|discriminate H].
  destruct (Z.eqb_spec (key cur) k) as [K | K]; [discriminate H|].
  destruct j as [|j].
  - replace (b + Z.of_nat 0) with b by lia.
    rewrite Z.mod_small by exact Hb. exists cur. auto.
  - assert (Hb' : 0 <= (b + 1) mod num_ents < num_ents)
      by (apply Z.mod_pos_bound; lia).
    assert (Hj' : (j < n)%nat) by lia.
    pose proof (IH t k num_ents _ Hb' H j Hj') as IH'.
    rewrite Zplus_mod_idemp_l in IH'.
    replace (b + Z.of_nat (S j)) with (b + 1 + Z.of_nat j) by lia.
    exact IH'.
Qed.

Lemma probe_loop_all_busy (m : nat) :
  forall (t : hash_table) (k num_ents b : Z),
    0 < num_ents ->
    (forall i, 0 <= i < num_ents -> busy t k i) ->
    0 <= b < num_ents ->
    probe_loop m t k num_ents b = Hangs.
Proof.
  induction m as [|m IH]; intros t k num_ents b Hpos Hall Hb; [reflexivity|].
  cbn [probe_loop].
  destruct (Hall b Hb) as (cur & R & V & K). rewrite R. cbn [obind].
  rewrite V. destruct (Z.eqb_spec (key cur) k) as [? | _]; [contradiction|].
  apply IH; [exact Hpos | exact Hall | apply Z.mod_pos_bound; exact Hpos].
Qed.

Lemma probe_loop_fuel_adequate (t : hash_table) (k num_ents b : Z) :
  0 <= b < num_ents ->
  probe_loop (Z.to_nat num_ents) t k num_ents b = Hangs ->
  forall m : nat, probe_loop m t k num_ents b = Hangs.
Proof.
  intros Hb H m. assert (Hpos : 0 < num_ents) by lia.
  apply probe_loop_all_busy; [exact Hpos | | exact Hb].
  intros i Hi.
  pose proof (probe_loop_hangs_busy _ t k num_ents b Hb H
                (Z.to_nat ((i - b) mod num_ents))) as Hbusy.
  pose proof (Z.mod_pos_bound (i - b) num_ents Hpos) as Hj.
  rewrite Z2Nat.id in Hbusy by lia.
  rewrite Zplus_mod_idemp_r in Hbusy.
  replace (b + (i - b)) with i in Hbusy by lia.
  rewrite (Z.mod_small i num_ents) in Hbusy by exact Hi.
  apply Hbusy. lia.
Qed.

Lemma read_slot_written (t : hash_table) (l : list hash_table_entry)
    (h : Z) (e : hash_table_entry) :
  0 <= h < Z.of_nat (length l) ->
  read_slot {| count := count t; len := len t;
               base := Some (<[Z.to_nat h := e]> l) |} h = Done e.
Proof.
  intros [H1 H2]. unfold read_slot. simpl base. cbv beta iota.
  rewrite length_insert.
  apply Z.leb_le in H1 as H1'. apply Z.ltb_lt in H2 as H2'.
  rewrite H1', H2'. simpl andb.
  rewrite list_lookup_insert_eq; [reflexivity | lia].
Qed.

(** After [hash_table_remove] of a key, [hash_table_get] of that key finds
    nothing, whatever the table held: a non-null old value is never
    returned again. *)
Lemma hash_table_get_after_remove (t : hash_table)
    (l : list hash_table_entry) (k : Z) :
  well_allocated t l ->
  exists r' : hash_table_ref,
    hash_table_remove (Some t) k = Done r' /\
    hash_table_get r' k = Done NULL.
Proof.
  intros W. pose proof W as (Hb & Hl & Hne).
  destruct (num_slots_well_allocated t l W) as [Hn Hpos].
  set (h := hash_key k mod Z.of_nat (length l)).
  pose proof (Z.mod_pos_bound (hash_key k) (Z.of_nat (length l)) Hpos)
    as Hh. fold h in Hh.
  set (l' := <[Z.to_nat h := hash_table_invalid_entry]> l).
  set (t' := {| count := wrap64 (count t - 1); len := len t;
                base := Some l' |}).
  assert (W' : well_allocated t' l').
  { unfold well_allocated, t', l'. cbn [base len]. rewrite length_insert.
    repeat split; [exact Hl|].
    intros E. apply (f_equal length) in E. rewrite length_insert in E.
    destruct l; [congruence | discriminate E]. }
  assert (Hlen : length l' = length l) by apply length_insert.
  exists (Some t'). split.
  - unfold hash_table_remove. rewrite Hb.
    rewrite (map_key_well_allocated t l k W). cbn [obind]. fold h.
    rewrite (write_slot_home t l (hash_key k) _ W). reflexivity.
  - assert (Hread : read_slot t' h = Done hash_table_invalid_entry).
    { apply (read_slot_written
               {| count := wrap64 (count t - 1); len := len t;
                  base := None |} l h). exact Hh. }
    unfold hash_table_get. unfold t' at 1. cbn [base].
    unfold hash_table_probe_get.
    rewrite (map_key_well_allocated t' l' k W'). rewrite Hlen. fold h.
    cbn [obind].
    destruct (count t' =? 0).
    + cbn [obind]. destruct (h =? UINT64_MAX); [reflexivity|].
      rewrite Hread. reflexivity.
    + destruct (num_slots_well_allocated t' l' W') as [Hn' _].
      rewrite Hn', Hlen.
      destruct (Z.to_nat (Z.of_nat (length l))) as [|fuel] eqn:E; [lia|].
      cbn [probe_loop]. rewrite Hread. reflexivity.
Qed.

(** C7.  [hash_table_remove] goes to the home slot of the key only: on
    every table whose storage is allocated it invalidates the slot at index
    [hash_key key mod num_slots] and decrements [count], whatever that slot
    holds.  Hence some table that is reachable through the public entry
    points holds an entry that linear probing displaced, and removing its
    key decreases [count] while the entry of another key is destroyed and
    the entry of the removed key stays in storage. *)
Theorem hash_table_remove_home_slot_only (F : Q) :
  (0 < F)%Q -> (F <= 1)%Q ->
  (forall (t : hash_table) (l : list hash_table_entry) (k : Z),
      base t = Some l ->
      len t = sizeof_entry * Z.of_nat (length l) -> l <> [] ->
      hash_table_remove (Some t) k =
      Done (Some {| count := wrap64 (count t - 1); len := len t;
                    base := Some (<[Z.to_nat (hash_key k mod Z.of_nat (length l))
                                    := hash_table_invalid_entry]> l) |}))
  /\ exists (r r' : hash_table_ref) (k v i : Z),
      reachable F r /\ displaced r k i /\
      hash_table_get r k = Done v /\ v <> NULL /\
      hash_table_remove r k = Done r' /\
      hash_table_count r' = hash_table_count r - 1 /\
      displaced r' k i /\
      (hash_table_get r' k = Done v \/
       exists k' v' : Z,
         k' <> k /\ v' <> NULL /\
         hash_table_get r k' = Done v' /\ hash_table_get r' k' = Done NULL).
Proof.
  intros Hpos Hle. split.
  - intros t l k Hb Hl Hne.
    assert (W : well_allocated t l) by (repeat split; assumption).
    unfold hash_table_remove. rewrite Hb.
    rewrite (map_key_well_allocated t l k W). cbn [obind].
    rewrite (write_slot_home t l (hash_key k) _ W). reflexivity.
  - exists table_two, table_two_removed, 2, 200, 1.
    split; [apply reachable_table_two; assumption|].
    split.
    { eexists _, _, _, 0.
      repeat split; try reflexivity; lia. }
    split; [reflexivity|]. split; [discriminate|].
    split; [reflexivity|]. split; [reflexivity|].
    split.
    { eexists _, _, _, 0.
      repeat split; try reflexivity; lia. }
    right. exists 0, 100. repeat split; try reflexivity; discriminate.
Qed.

Lemma hash_table_remove_home_slot_only_witness :
  ((0 < 1 # 2)%Q /\ (1 # 2 <= 1)%Q) /\
  exists (r r' : hash_table_ref) (k v i : Z),
      reachable (1 # 2) r /\ displaced r k i /\
      hash_table_get r k = Done v /\ v <> NULL /\
      hash_table_remove r k = Done r' /\
      hash_table_count r' = hash_table_count r - 1 /\
      displaced r' k i /\
      (hash_table_get r' k = Done v \/
       exists k' v' : Z,
         k' <> k /\ v' <> NULL /\
         hash_table_get r k' = Done v' /\ hash_table_get r' k' = Done NULL).
Proof.
  assert (H1 : (0 < 1 # 2)%Q) by reflexivity.
  assert (H2 : (1 # 2 <= 1)%Q) by discriminate.
  split; [split; assumption|].
  exact (proj2 (hash_table_remove_home_slot_only (1 # 2) H1 H2)).
Defined.

(** *** Reading back what [hash_table_set] wrote *)

Lemma read_slot_insert (t : hash_table) (l : list hash_table_entry)
    (c len0 dest b : Z) (e : hash_table_entry) :
  base t = Some l -> 0 <= dest < Z.of_nat (length l) ->
  read_slot {| count := c; len := len0;
               base := Some (<[Z.to_nat dest := e]> l) |} b
  = if b =? dest then Done e else read_slot t b.
Proof.
  intros Hb Hd. unfold read_slot. rewrite Hb. cbn [base].
  rewrite length_insert.
  destruct (Z.eqb_spec b dest) as [-> | Hne].
  - destruct Hd as [H1 H2].
    apply Z.leb_le in H1 as H1'. apply Z.ltb_lt in H2 as H2'.
    rewrite H1', H2'. cbn [andb].
    rewrite list_lookup_insert_eq; [reflexivity | lia].
  - destruct (0 <=? b) eqn:E1; [|reflexivity].
    destruct (b <? Z.of_nat (length l)) eqn:E2; [|reflexivity].
    cbn [andb]. apply Z.leb_le in E1.
    rewrite list_lookup_insert_ne; [reflexivity | lia].
Qed.

Lemma read_slot_in_range (t : hash_table) (i : Z) (e : hash_table_entry) :
  read_slot t i = Done e ->
  exists l, base t = Some l /\ 0 <= i < Z.of_nat (length l).
Proof.
  unfold read_slot. destruct (base t) as [l|]; [|discriminate].
  destruct (0 <=? i) eqn:E1; [|discriminate].
  destruct (i <? Z.of_nat (length l)) eqn:E2; [|discriminate].
  intros _. exists l. split; [reflexivity|].
  apply Z.leb_le in E1. apply Z.ltb_lt in E2. lia.
Qed.

(** The slot at which the probing loop stops holds the key, or is free. *)
Lemma probe_loop_stops_at (n : nat) :
  forall (t : hash_table) (k num_ents b dest : Z) (found : bool),
    probe_loop n t k num_ents b = Done (dest, found) ->
    exists cur,
      read_slot t dest = Done cur /\
      (if found then valid cur = true /\ key cur = k
       else valid cur = false).
Proof.
  induction n as [|n IH]; intros t k num_ents b dest found H.
  - discriminate H.
  - cbn [probe_loop] in H.
    destruct (read_slot t b) as [cur| |] eqn:R; cbn [obind] in H;
      try discriminate H.
    destruct (valid cur) eqn:V.
    + destruct (Z.eqb_spec (key cur) k) as [K | K].
      * injection H as <- <-. exists cur. auto.
      * eapply IH. exact H.
    + injection H as <- <-. exists cur. auto.
Qed.

Lemma probe_loop_in_range (n : nat) :
  forall (t : hash_table) (k num_ents b dest : Z) (found : bool),
    0 < num_ents -> 0 <= b < num_ents ->
    probe_loop n t k num_ents b = Done (dest, found) ->
    0 <= dest < num_ents.
Proof.
  induction n as [|n IH]; intros t k num_ents b dest found Hpos Hb H.
  - discriminate H.
  - cbn [probe_loop] in H.
    destruct (read_slot t b) as [cur| |] eqn:R; cbn [obind] in H;
      try discriminate H.
    destruct (valid cur) eqn:V.
    + destruct (key cur =? k).
      * injection H as <- <-. exact Hb.
      * eapply IH; [exact Hpos | | exact H].
        apply Z.mod_pos_bound. exact Hpos.
    + injection H as <- <-. exact Hb.
Qed.

(** Probing again after the entry has been written at the slot where the
    loop stopped finds the key at that slot. *)
Lemma probe_loop_after_write (n : nat) :
  forall (t : hash_table) (l : list hash_table_entry)
         (k v c num_ents b dest : Z) (found : bool),
    base t = Some l ->
    probe_loop n t k num_ents b = Done (dest, found) ->
    probe_loop n
      {| count := c; len := len t;
         base := Some (<[Z.to_nat dest
                         := {| valid := true; key := k; value := v |}]> l) |}
      k num_ents b
    = Done (dest, true).
Proof.
  induction n as [|n IH]; intros t l k v c num_ents b dest found Hb H.
  - discriminate H.
  - destruct (probe_loop_stops_at _ _ _ _ _ _ _ H) as (cur' & Rd & Hcur').
    destruct (read_slot_in_range _ _ _ Rd) as (l' & Hb' & Hrange).
    assert (l' = l) by congruence. subst l'.
    cbn [probe_loop] in *.
    rewrite (read_slot_insert t l c (len t) dest b _ Hb Hrange).
    destruct (Z.eqb_spec b dest) as [-> | Hne].
    + cbn [obind valid key]. now rewrite Z.eqb_refl.
    + destruct (read_slot t b) as [cur| |] eqn:R; cbn [obind] in *;
        try discriminate H.
      destruct (valid cur) eqn:V.
      * destruct (Z.eqb_spec (key cur) k) as [K | K].
        -- injection H as E _. congruence.
        -- eapply IH; [exact Hb | exact H].
      * injection H as E _. congruence.
Qed.

(** When [hash_table_set] returns and leaves a non-zero [count],
    [hash_table_get] of the key returns the value just stored. *)
Lemma hash_table_get_after_set (F : Q) (t t' : hash_table) (k v : Z) :
  hash_table_set F (Some t) k v = Done (Some t') ->
  count t' <> 0 ->
  0 < hash_table_num_slots (Some t') < 2 ^ 64 ->
  hash_table_get (Some t') k = Done v.
Proof.
  intros Hset Hcount Hslots. unfold hash_table_set in Hset.
  destruct (hash_table_unforced_grow F t) as [t1| |]; cbn [obind] in Hset;
    try discriminate Hset.
  destruct (hash_table_probe_set t1 k) as [[dest replace]| |] eqn:Hprobe;
    cbn [obind] in Hset; try discriminate Hset.
  destruct (write_slot t1 dest _) as [t2| |] eqn:Hwrite;
    cbn [obind] in Hset; try discriminate Hset.
  unfold write_slot in Hwrite.
  destruct (base t1) as [l1|] eqn:Hb1; [|discriminate Hwrite].
  destruct (0 <=? dest) eqn:E1; [|discriminate Hwrite].
  destruct (dest <? Z.of_nat (length l1)) eqn:E2; [|discriminate Hwrite].
  cbn [andb] in Hwrite. injection Hwrite as <-.
  apply Z.leb_le in E1. apply Z.ltb_lt in E2.
  set (new := {| valid := true; key := k; value := v |}) in *.
  assert (Ht' : exists c,
             t' = {| count := c; len := len t1;
                     base := Some (<[Z.to_nat dest := new]> l1) |}).
  { destruct replace; injection Hset as <-; eexists; reflexivity. }
  destruct Ht' as (c & ->). cbn [count] in Hcount.
  unfold hash_table_num_slots in Hslots. cbn [len] in Hslots.
  assert (Hread : read_slot
            {| count := c; len := len t1;
               base := Some (<[Z.to_nat dest := new]> l1) |} dest
            = Done new).
  { rewrite (read_slot_insert t1 l1 c (len t1) dest dest new Hb1);
      [now rewrite Z.eqb_refl | lia]. }
  unfold hash_table_get. cbn [base].
  unfold hash_table_probe_get, hash_table_probe_set in *.
  unfold hash_table_map_key, hash_table_num_slots in *. cbn [len count].
  destruct (Z.eqb_spec (len t1 / sizeof_entry) 0) as [Z0 | NZ]; [lia|].
  cbn [obind] in *.
  pose proof (Z.mod_pos_bound (hash_key k) (len t1 / sizeof_entry)
                (proj1 Hslots)) as Hhome.
  destruct (Z.eqb_spec c 0) as [? | _]; [contradiction|].
  assert (Hdest : 0 <= dest < len t1 / sizeof_entry /\
                  probe_loop (Z.to_nat (len t1 / sizeof_entry))
                    {| count := c; len := len t1;
                       base := Some (<[Z.to_nat dest := new]> l1) |}
                    k (len t1 / sizeof_entry)
                    (hash_key k mod (len t1 / sizeof_entry))
                  = Done (dest, true)).
  { destruct (count t1 =? 0).
    - injection Hprobe as <- _. split; [exact Hhome|].
      destruct (Z.to_nat (len t1 / sizeof_entry)) as [|fuel] eqn:E; [lia|].
      cbn [probe_loop]. rewrite Hread. cbn [obind new valid key].
      now rewrite Z.eqb_refl.
    - split.
      + eapply probe_loop_in_range; [| exact Hhome | exact Hprobe]. lia.
      + eapply (probe_loop_after_write _ t1 l1 k v c); [exact Hb1|].
        exact Hprobe. }
  destruct Hdest as [Hrange Hloop]. rewrite Hloop. cbn [obind snd fst].
  destruct (Z.eqb_spec dest UINT64_MAX) as [E | _].
  - unfold UINT64_MAX in E. lia.
  - rewrite Hread. reflexivity.
Qed.

(** C10.  On the reachable table that holds keys 0 and 2, key 0 is present
    with value 100 and [count] is 2; [hash_table_set] of key 0 then returns,
    the new value is read back, but [count] becomes 3: the growth step
    rehashes both entries to slot 0 without probing, the entry of key 0 is
    overwritten, and the key is inserted as if it were new. *)
Theorem hash_table_set_present_key_counted_twice (F : Q) :
  (0 < F)%Q -> (F <= 1)%Q ->
  exists r r' : hash_table_ref,
    reachable F r /\
    hash_table_get r 0 = Done 100 /\ hash_table_count r = 2 /\
    hash_table_set F r 0 300 = Done r' /\
    hash_table_get r' 0 = Done 300 /\ hash_table_count r' = 3.
Proof.
  intros Hpos Hle. exists table_two, table_three.
  split; [apply reachable_table_two; assumption|].
  split; [reflexivity|]. split; [reflexivity|].
  split; [apply set_third; assumption|].
  split; reflexivity.
Qed.

Lemma hash_table_set_present_key_counted_twice_witness :
  ((0 < 1 # 2)%Q /\ (1 # 2 <= 1)%Q) /\
  exists r r' : hash_table_ref,
    reachable (1 # 2) r /\
    hash_table_get r 0 = Done 100 /\ hash_table_count r = 2 /\
    hash_table_set (1 # 2) r 0 300 = Done r' /\
    hash_table_get r' 0 = Done 300 /\ hash_table_count r' = 3.
Proof.
  assert (H1 : (0 < 1 # 2)%Q) by reflexivity.
  assert (H2 : (1 # 2 <= 1)%Q) by discriminate.
  split; [split; assumption|].
  exact (hash_table_set_present_key_counted_twice (1 # 2) H1 H2).
Defined.

End HashTableFacts.

(** ** Enabledness of thread operations *)

Section ThreadFacts.
Import Thread.

(** C5.  For non-null [top] and [thread], a [THREAD_JOIN] operation is
    enabled exactly when its target thread is not alive; with a null
    operation or a null thread the predicate is false. *)
Theorem thread_operation_enabled_join :
  (forall (top : thread_operation) (th tgt : thread),
      type top = THREAD_JOIN -> target top = Some tgt ->
      exists b : bool,
        thread_operation_enabled (Some top) (Some th) = Done b /\
        (b = true <-> is_alive tgt = false))
  /\ (forall (top : option thread_operation) (th : option thread),
        top = None \/ th = None ->
        thread_operation_enabled top th = Done false).
Proof.
  split.
  - intros top th tgt Hty Htg. exists (negb (is_alive tgt)).
    unfold thread_operation_enabled. rewrite Hty, Htg. split; [reflexivity|].
    destruct (is_alive tgt); simpl; split; congruence.
  - intros top th [-> | ->]; [reflexivity|]. now destruct top.
Qed.

Lemma thread_operation_enabled_join_witness :
  let tgt := {| tid := 1; owner := 7; arg := 0; start_routine := 0;
               state := THREAD_DEAD; is_alive := false |} in
  let top := {| type := THREAD_JOIN; target := Some tgt |} in
  (type top = THREAD_JOIN /\ target top = Some tgt) /\
  (exists b : bool,
      thread_operation_enabled (Some top) (Some tgt) = Done b /\
      (b = true <-> is_alive tgt = false)) /\
  ((None : option thread_operation) = None \/ Some tgt = None) /\
  thread_operation_enabled None (Some tgt) = Done false.
Proof.
  intros tgt top.
  split; [split; reflexivity|].
  split.
  - exact (proj1 thread_operation_enabled_join top tgt tgt eq_refl eq_refl).
  - split; [left; reflexivity|].
    exact (proj2 thread_operation_enabled_join None (Some tgt)
                 (or_introl eq_refl)).
Defined.

End ThreadFacts.

(** ** Dependency and co-enabledness of cond-enqueue *)

Section TransitionFacts.
Import Transitions.

(** Both methods of [MCCondEnqueue] send a mutex transition to the same
    helper, whatever that helper computes. *)
Lemma MCCondEnqueue_mutex_case (K : MCTransition -> MCTransition -> bool)
    (e : MCCondEnqueue) (v : mutex_variant) (th : MCThread)
    (m : option MCMutex) :
  MCCondEnqueue_dependentWith K e (MCMutexTransition v th m) =
    K (MCMutexUnlock (thread e) (mutex (conditionVariable e)))
      (MCMutexTransition v th m)
  /\ MCCondEnqueue_coenabledWith K e (MCMutexTransition v th m) =
    K (MCMutexUnlock (thread e) (mutex (conditionVariable e)))
      (MCMutexTransition v th m).
Proof. split; reflexivity. Qed.

(** The co-enabledness half of the rule "as for unlock(m)": a cond-enqueue
    is co-enabled with a mutex transition exactly as an unlock of [m] is. *)
Lemma cond_enqueue_coenabled_as_unlock (e : MCCondEnqueue) (m : MCMutex)
    (v : mutex_variant) (th th' : MCThread) (m' : option MCMutex) :
  coenabled (MCCondEnqueueTransition e) (MCMutexTransition v th m') =
  coenabled (MCMutexUnlock th' (Some m)) (MCMutexTransition v th m').
Proof. now destruct v. Qed.

(** C4.  [MCCondEnqueue::dependentWith] answers a mutex transition with
    the value of [transitionsCoenabledCommon], as [coenabledWith] does, so
    the dependency of a cond-enqueue with a mutex transition is the
    co-enabledness of the unlock.  For cond-enqueue(c, m) of thread 1 and
    mutex-unlock(m) of thread 2 the code answers "dependent", while
    mutex-unlock(m) and mutex-unlock(m) are independent; the co-enabledness
    of the two pairs agrees. *)
Theorem cond_enqueue_dependency_is_coenabledness :
  let m := {| mutex_objid := 3 |} in
  let e := {| thread := {| tid := 1 |};
              conditionVariable := {| cond_objid := 7; mutex := Some m |};
              enqueue_mutex := m |} in
  let t := MCMutexTransition mutex_unlock {| tid := 2 |} (Some m) in
  (forall K : MCTransition -> MCTransition -> bool,
      MCCondEnqueue_dependentWith K e t = MCCondEnqueue_coenabledWith K e t)
  /\ depends (MCCondEnqueueTransition e) t = true
  /\ depends (MCMutexUnlock {| tid := 1 |} (Some m)) t = false
  /\ coenabled (MCCondEnqueueTransition e) t =
     coenabled (MCMutexUnlock {| tid := 1 |} (Some m)) t.
Proof. repeat split. Qed.

End TransitionFacts.

(** ** The initial program model *)

Section ProgramFacts.
Import Model Program.
Local Open Scope Z_scope.

(** C3.  The initial program model has exactly one runner, the main
    thread, whose runner ID is 0 and whose state is running; its pending
    transition is thread-start(main) and it is the only pending one; no
    visible object is a non-runner; nothing has been executed. *)
Theorem initial_program_model :
  let p := model_for_program_starting_at_main in
  main_thread_id = 0 /\
  length (runner_to_obj (state_of_program p)) = 1%nat /\
  get_state_of_runner (state_of_program p) main_thread_id
    = Some (thread running) /\
  next_steps p = {[ main_thread_id := thread_start main_thread_id ]} /\
  non_runner_objects (state_of_program p) = [] /\
  trace p = [].
Proof. repeat split. Qed.

End ProgramFacts.

(** ** The address map, the callbacks and the coordinator *)

Section CoordinatorFacts.
Import Model Coordinator.
Local Open Scope Z_scope.

Variable invalid_objid : objid_t.

Lemma contains_false_iff (m : gmap remote_address objid_t)
    (a : remote_address) :
  contains invalid_objid m a = false <->
  m !! a = None \/ m !! a = Some invalid_objid.
Proof.
  unfold contains, get_model_of, get_object_for_remote_process_handle.
  destruct (m !! a) as [id|] eqn:E.
  - rewrite negb_false_iff, Z.eqb_eq. split.
    + intros ->. now right.
    + intros [H | H]; congruence.
  - rewrite Z.eqb_refl. simpl. split; auto.
Qed.

(** C2.  On an address that the map does not hold,
    [observe_remote_process_handle] returns the invalid ID and records
    nothing: the map is the same afterwards and still does not contain the
    address. *)
Theorem observe_remote_process_handle_records_nothing
    (m : gmap remote_address objid_t) (a : remote_address)
    (s : visible_object_state) :
  m !! a = None ->
  observe_remote_process_handle invalid_objid m a s = (invalid_objid, m) /\
  contains invalid_objid
    (snd (observe_remote_process_handle invalid_objid m a s)) a = false.
Proof.
  intros H.
  assert (E : observe_remote_process_handle invalid_objid m a s
              = (invalid_objid, m)).
  { unfold observe_remote_process_handle,
      get_object_for_remote_process_handle.
    rewrite H, Z.eqb_refl. reflexivity. }
  rewrite E. split; [reflexivity|].
  apply contains_false_iff. now left.
Qed.

(** C9.  [mutex_unlock_callback] never changes the address map, and on an
    address that the map does not contain it throws the undefined-behavior
    error with the message of the lock case. *)
Theorem mutex_unlock_callback_unknown_address :
  (forall (p : runner_id_t) (rmb : runner_mailbox)
          (m : gmap remote_address objid_t),
      snd (mutex_unlock_callback invalid_objid p rmb m) = m)
  /\ (forall (p : runner_id_t) (rmb : runner_mailbox)
             (m : gmap remote_address objid_t),
      contains invalid_objid m (read_pointer rmb) = false ->
      mutex_unlock_callback invalid_objid p rmb m =
        (Throws (undefined_behavior_exception
                   "Attempting to lock an uninitialized mutex"), m)
      /\ mutex_unlock_callback invalid_objid p rmb m =
         mutex_lock_callback invalid_objid p rmb m).
Proof.
  split.
  - intros p rmb m. unfold mutex_unlock_callback.
    now destruct (contains invalid_objid m (read_pointer rmb)).
  - intros p rmb m H. unfold mutex_unlock_callback, mutex_lock_callback.
    rewrite H. split; reflexivity.
Qed.

Variable program : Type.
Variable model_executing_runner :
  program -> runner_id_t -> transition -> program.

(** C1, as the code has it.  [execute_runner] throws an execution error
    when there is no live child, when the posted tag is not registered, or
    when the callback returns null, and otherwise only when the callback
    itself throws one.  When the callback returns a transition, that
    transition is handed to [model_executing_runner].  When the callback
    throws, its exception goes through and the program model is left as it
    was. *)
Theorem execute_runner_outcomes (c : coordinator program)
    (runner_id : runner_id_t) :
  let r := execute_runner model_executing_runner c runner_id in
  ((exists what, fst r = Throws (execution_exception what)) <->
     no_live_child c \/ unregistered_tag c runner_id \/
     callback_returns_null c runner_id \/
     exists what m,
       callback_outcome c runner_id
       = Some (Throws (execution_exception what), m))
  /\ (forall t m,
        callback_outcome c runner_id = Some (Returns (Some t), m) ->
        r = (Returns tt, handed_over model_executing_runner c runner_id t m))
  /\ (forall e m,
        callback_outcome c runner_id = Some (Throws e, m) ->
        r = (Throws e, with_address_map c m)).
Proof.
  unfold execute_runner, callback_outcome, no_live_child, unregistered_tag,
    callback_returns_null, callback_outcome, handed_over.
  destruct (current_process_handle c) as [h|] eqn:Hh; simpl.
  - destruct (get_callback_for _ _) as [cb|] eqn:Hcb; simpl.
    + destruct (cb runner_id _ _) as [[[t|]|e] m] eqn:Hrun; simpl.
      * split; [|split].
        -- split.
           ++ intros [what H]. discriminate.
           ++ intros [H | [(h' & H1 & H2) | [(m' & H) | (what & m' & H)]]];
                try discriminate.
              injection H1 as <-. congruence.
        -- intros t' m' H. now injection H as <- <-.
        -- intros e m' H. discriminate.
      * split; [|split].
        -- split; [|eauto]. intros _. right. right. left. eauto.
        -- intros t' m' H. discriminate.
        -- intros e m' H. discriminate.
      * split; [|split].
        -- split.
           ++ intros [what H]. injection H as ->.
              right. right. right. eauto.
           ++ intros [H | [(h' & H1 & H2) | [(m' & H) | (what & m' & H)]]];
                try discriminate.
              ** injection H1 as <-. congruence.
              ** injection H as -> _. eauto.
        -- intros t' m' H. discriminate.
        -- intros e' m' H. now injection H as <- <-.
    + split; [|split]; try (intros; discriminate).
      split; [|eauto]. intros _. right. left. eauto.
  - split; [|split]; try (intros; discriminate).
    split; [|eauto]. intros _. now left.
Qed.

End CoordinatorFacts.

Section CoordinatorExamples.
Import Model Coordinator.
Local Open Scope Z_scope.

Lemma observe_remote_process_handle_records_nothing_witness :
  (∅ : gmap remote_address objid_t) !! 4096 = None /\
  observe_remote_process_handle (-1) ∅ 4096 (mutex uninitialized) = (-1, ∅) /\
  contains (-1)
    (snd (observe_remote_process_handle (-1) ∅ 4096 (mutex uninitialized)))
    4096 = false.
Proof.
  split; [reflexivity|].
  exact (observe_remote_process_handle_records_nothing
           (-1) ∅ 4096 (mutex uninitialized) eq_refl).
Defined.

Lemma mutex_unlock_callback_unknown_address_witness :
  let rmb := {| cnts := [2; 16; 0; 0; 0; 0; 0; 0] |} in
  contains (-1) ∅ (read_pointer rmb) = false /\
  mutex_unlock_callback (-1) 0 rmb ∅ =
    (Throws (undefined_behavior_exception
               "Attempting to lock an uninitialized mutex"), ∅) /\
  mutex_unlock_callback (-1) 0 rmb ∅ = mutex_lock_callback (-1) 0 rmb ∅.
Proof.
  intros rmb. split; [reflexivity|].
  exact (proj2 (mutex_unlock_callback_unknown_address (-1)) 0 rmb ∅ eq_refl).
Defined.

Lemma execute_runner_outcomes_witness :
  let c := example_coordinator 4 in
  callback_outcome c 0 = Some (Returns (Some (thread_exit 0)), ∅) /\
  execute_runner example_model_executing_runner c 0 =
    (Returns tt,
     handed_over example_model_executing_runner c 0 (thread_exit 0) ∅).
Proof.
  intros c. split; [reflexivity|].
  exact (proj1 (proj2 (execute_runner_outcomes
                         (list transition) example_model_executing_runner
                         c 0))
               (thread_exit 0) ∅ eq_refl).
Defined.

(** C1 as the spec states it fails when the callback throws: the child is
    alive, the posted tag is registered to [mutex_lock_callback], the
    callback does not return null, and yet no transition reaches the
    program model: the undefined-behavior error of the callback comes out
    of [execute_runner], which is not an execution error either. *)
Lemma execute_runner_callback_throws :
  let c := example_coordinator 1 in
  let r := execute_runner example_model_executing_runner c 0 in
  ~ (no_live_child c \/ unregistered_tag c 0 \/ callback_returns_null c 0)
  /\ r = (Throws (undefined_behavior_exception
                    "Attempting to lock an uninitialized mutex"), c)
  /\ ~ (exists t m,
          r = (Returns tt,
               handed_over example_model_executing_runner c 0 t m)).
Proof.
  intros c r. split; [|split].
  - intros [H | [(h & H1 & H2) | (m & H)]].
    + discriminate H.
    + injection H1 as <-. discriminate H2.
    + discriminate H.
  - reflexivity.
  - intros (t & m & H). discriminate H.
Qed.

End CoordinatorExamples.

(** ** The command line *)

Section CliFacts.
Import Cli.
Local Open Scope Z_scope.

Variable strtoul : string -> Z.
Variable strtol : string -> Z * string.
Variable stat : string -> bool.
Variable default_config : config.
Variable envp0 : option string.

Abbreviation option_loop := (Cli.option_loop strtoul strtol envp0).
Abbreviation main_cpp :=
  (Cli.main_cpp strtoul strtol stat default_config envp0).



(** Options that are read to their end without a look past the terminator
    of [argv] are read in the same way when more arguments follow. *)
Lemma option_loop_app (n : nat) :
  forall (options rest : list string) (cfg cfg' : config),
    (length options <= n)%nat ->
    Cli.option_loop strtoul strtol None options cfg = Proceeds (cfg', []) ->
    option_loop (options ++ rest) cfg = option_loop rest cfg'.
Proof.
  induction n as [|n IH]; intros options rest cfg cfg' Hlen H.
  - destruct options; [|simpl in Hlen; lia].
    injection H as <-. reflexivity.
  - destruct options as [|a args].
    { injection H as <-. reflexivity. }
    simpl in Hlen. cbn [Cli.option_loop app] in *.
    destruct (starts_with_dash a) eqn:D; cbn [negb] in *;
      [|discriminate H].
    destruct (classify a).
    + destruct args as [|v args']; [discriminate H|]. cbn [app].
      destruct (strtol v) as [k endptr].
      destruct ((k =? 0) || negb (String.eqb endptr EmptyString));
        [discriminate H|].
      apply IH; [simpl in Hlen; lia | exact H].
    + destruct args as [|v args']; [discriminate H|]. cbn [app].
      apply IH; [simpl in Hlen; lia | exact H].
    + destruct args as [|v args']; [discriminate H|]. cbn [app].
      apply (IH (v :: args')); [lia | exact H].
    + apply IH; [lia | exact H].
    + destruct args as [|v args']; [discriminate H|]. cbn [app].
      destruct (strtol v) as [k endptr].
      destruct ((k =? 0) || negb (String.eqb endptr EmptyString));
        [discriminate H|].
      apply IH; [simpl in Hlen; lia | exact H].
    + destruct args as [|v0 [|v args']]; try discriminate H.
      cbn [app cur_arg_2] in *.
      apply (IH (v0 :: v :: args')); [lia | exact H].
    + discriminate H.
    + discriminate H.
Qed.


End CliFacts.

Section CliExamples.
Import Cli.
Local Open Scope Z_scope.

Abbreviation example_main_cpp :=
  (Cli.main_cpp example_strtoul example_strtol example_stat example_config
                example_envp0).



End CliExamples.

(** ** The hash table: what [hash_table_set] keeps *)

Section HashTableInvariantFacts.
Import HashTable HashTableInvariant.
Local Open Scope Z_scope.

Lemma occupied_cons (e : hash_table_entry) (l : list hash_table_entry) :
  occupied (e :: l) = b2z (valid e) + occupied l.
Proof.
  unfold occupied, b2z. simpl. destruct (valid e); simpl length; lia.
Qed.

Lemma occupied_bounds (l : list hash_table_entry) :
  0 <= occupied l <= Z.of_nat (length l).
Proof.
  induction l as [|e l IH].
  - unfold occupied. simpl. lia.
  - rewrite occupied_cons. simpl length. unfold b2z. destruct (valid e); lia.
Qed.

Lemma occupied_insert (l : list hash_table_entry) :
  forall (i : nat) (e old : hash_table_entry),
    l !! i = Some old ->
    occupied (<[i := e]> l) = occupied l - b2z (valid old) + b2z (valid e).
Proof.
  induction l as [|x l IH]; intros i e old H.
  - discriminate H.
  - destruct i as [|i].
    + injection H as ->. simpl. rewrite !occupied_cons. lia.
    + simpl in H. simpl. rewrite !occupied_cons. rewrite (IH i e old H). lia.
Qed.

Lemma occupied_replicate (n : nat) :
  occupied (replicate n hash_table_invalid_entry) = 0.
Proof.
  induction n as [|n IH]; [reflexivity|].
  simpl replicate. rewrite occupied_cons, IH. reflexivity.
Qed.

Lemma occupied_all_valid (l : list hash_table_entry) :
  (forall i : nat, (i < length l)%nat ->
     exists e, l !! i = Some e /\ valid e = true) ->
  occupied l = Z.of_nat (length l).
Proof.
  induction l as [|x l IH]; intros H; [reflexivity|].
  rewrite occupied_cons. simpl length.
  destruct (H 0%nat ltac:(simpl; lia)) as (e & He & Hv).
  injection He as ->. rewrite Hv. unfold b2z.
  rewrite IH; [lia|].
  intros i Hi. apply (H (S i)). simpl. lia.
Qed.

Lemma occupied_take_drop (old : list hash_table_entry) (i : nat)
    (ent : hash_table_entry) (m : nat) :
  old !! i = Some ent ->
  occupied (take (S m) (drop i old))
  = b2z (valid ent) + occupied (take m (drop (S i) old)).
Proof.
  intros H. rewrite (drop_S old ent i H). simpl take. apply occupied_cons.
Qed.

Lemma well_allocated_insert (t : hash_table) (l : list hash_table_entry)
    (c : Z) (i : nat) (e : hash_table_entry) :
  well_allocated t l ->
  well_allocated {| count := c; len := len t; base := Some (<[i := e]> l) |}
                 (<[i := e]> l).
Proof.
  intros (Hb & Hl & Hne). unfold well_allocated. cbn [base len].
  rewrite length_insert. repeat split; [exact Hl|].
  intros E. apply (f_equal length) in E. rewrite length_insert in E.
  destruct l; [congruence | discriminate E].
Qed.

(** The rehash loop on a well-allocated table returns while its index
    stays an [int]; it keeps [count], [len] and the number of slots, and
    adds at most as many valid entries as it has read. *)
Lemma rehash_loop_returns (m : nat) :
  forall (i : nat) (t : hash_table) (l old : list hash_table_entry),
    well_allocated t l ->
    (i + m <= length old)%nat ->
    Z.of_nat (i + m) <= INT_MAX ->
    exists t' l',
      rehash_loop m (Z.of_nat i) t old = Done t' /\
      well_allocated t' l' /\ length l' = length l /\
      count t' = count t /\ len t' = len t /\
      occupied l' <= occupied l + occupied (take m (drop i old)).
Proof.
  induction m as [|m IH]; intros i t l old W Hlen Hint.
  - exists t, l. split; [reflexivity|]. split; [exact W|].
    repeat (split; [reflexivity|]).
    rewrite take_0. change (occupied []) with 0. lia.
  - assert (NM : (Z.of_nat i =? INT_MAX) = false)
      by (apply Z.eqb_neq; lia).
    cbn [rehash_loop]. rewrite Nat2Z.id, NM.
    destruct (old !! i) as [ent|] eqn:E.
    2:{ apply lookup_ge_None in E. lia. }
    rewrite (occupied_take_drop old i ent m E).
    assert (Hlen1 : (S i + m <= length old)%nat) by lia.
    assert (Hint1 : Z.of_nat (S i + m) <= INT_MAX) by lia.
    replace (Z.of_nat i + 1) with (Z.of_nat (S i)) by lia.
    destruct (valid ent) eqn:V.
    + rewrite (map_key_well_allocated t l (key ent) W). cbn [obind].
      rewrite (write_slot_home t l (hash_key (key ent)) ent W). cbn [obind].
      set (h := Z.to_nat (hash_key (key ent) mod Z.of_nat (length l))).
      pose proof (well_allocated_insert t l (count t) h ent W) as W'.
      destruct (IH (S i) _ _ old W' Hlen1 Hint1)
        as (t' & l' & Hrun & W'' & Hlen' & Hc & Hl & Hocc).
      exists t', l'. split; [exact Hrun|]. split; [exact W''|].
      rewrite length_insert in Hlen'. cbn [count len] in Hc, Hl.
      repeat (split; [assumption|]).
      destruct (num_slots_well_allocated t l W) as [_ Hpos].
      pose proof (Z.mod_pos_bound (hash_key (key ent))
                    (Z.of_nat (length l)) Hpos) as Hh.
      destruct (l !! h) as [old_e|] eqn:El.
      2:{ apply lookup_ge_None in El. unfold h in El. lia. }
      rewrite (occupied_insert l h ent old_e El) in Hocc.
      rewrite V in Hocc. unfold b2z in *. destruct (valid old_e); lia.
    + destruct (IH (S i) t l old W Hlen1 Hint1)
        as (t' & l' & Hrun & W'' & Hlen' & Hc & Hl & Hocc).
      exists t', l'. split; [exact Hrun|]. split; [exact W''|].
      repeat (split; [assumption|]). unfold b2z. lia.
Qed.

Lemma sane_ensure_base (t : hash_table) :
  sane t -> len t <= sizeof_entry * INT_MAX ->
  exists l0,
    well_allocated (ensure_base t) l0 /\
    occupied l0 <= count t <= Z.of_nat (length l0) /\
    count (ensure_base t) = count t /\
    len (ensure_base t) <= sizeof_entry * INT_MAX.
Proof.
  unfold sane, ensure_base. intros H Hlen.
  destruct (base t) as [l|] eqn:Hb.
  - exists l. destruct H as [W Hc]. repeat split; try apply W; try lia.
  - exists [hash_table_invalid_entry]. cbn [count len].
    split; [repeat split; discriminate|].
    rewrite H. change (occupied [hash_table_invalid_entry]) with 0.
    simpl length. unfold sizeof_entry, INT_MAX. lia.
Qed.

(** The growth step returns on a sane table of at most [INT_MAX] slots,
    and leaves room for one more entry. *)
Lemma hash_table_unforced_grow_returns (F : Q) (t : hash_table) :
  (F <= 1)%Q -> sane t -> len t <= sizeof_entry * INT_MAX ->
  exists t1 l1,
    hash_table_unforced_grow F t = Done t1 /\
    well_allocated t1 l1 /\
    occupied l1 <= count t1 /\ count t1 < Z.of_nat (length l1) /\
    count t1 = count t /\ len t1 < 2 ^ 64.
Proof.
  intros HF Hsane Hlen.
  destruct (sane_ensure_base t Hsane Hlen) as (l0 & W0 & Hc & Hc0 & Hlen0).
  unfold hash_table_unforced_grow.
  set (t0 := ensure_base t) in *.
  pose proof W0 as (Hb0 & Hl0 & Hne0).
  destruct (num_slots_well_allocated t0 l0 W0) as [_ Hpos].
  assert (Hl0' : len t0 = 24 * Z.of_nat (length l0)) by exact Hl0.
  assert (Hint : Z.of_nat (length l0) <= INT_MAX)
    by (unfold sizeof_entry in Hlen0; lia).
  assert (Hint' : Z.of_nat (length l0) < 2 ^ 31)
    by (unfold INT_MAX in Hint; lia).
  destruct (grow_needed F t0) eqn:G.
  - rewrite Hb0.
    assert (E1 : wrap64 (len t0 * 2) = 48 * Z.of_nat (length l0)).
    { unfold wrap64. rewrite Z.mod_small; lia. }
    assert (E2 : wrap64 (2 * len t0) / sizeof_entry
                 = Z.of_nat (length l0 + length l0)).
    { unfold wrap64. rewrite Z.mod_small by lia. unfold sizeof_entry.
      rewrite Hl0'.
      replace (2 * (24 * Z.of_nat (length l0)))
        with (Z.of_nat (length l0 + length l0) * 24) by lia.
      apply Z.div_mul. discriminate. }
    rewrite E1, E2, Nat2Z.id.
    set (n2 := (length l0 + length l0)%nat).
    set (tnew := {| count := count t0; len := 48 * Z.of_nat (length l0);
                    base := Some (replicate n2 hash_table_invalid_entry) |}).
    assert (Wnew : well_allocated tnew
                     (replicate n2 hash_table_invalid_entry)).
    { unfold well_allocated, tnew. cbn [base len].
      rewrite length_replicate. unfold sizeof_entry, n2.
      repeat split; [lia|].
      destruct l0; [congruence | discriminate]. }
    unfold hash_table_rehash. unfold tnew at 1. cbn [base]. fold tnew.
    assert (E3 : Z.to_nat (hash_table_num_slots (Some tnew) / 2)
                 = length l0).
    { destruct (num_slots_well_allocated tnew _ Wnew) as [-> _].
      rewrite length_replicate. unfold n2.
      replace (Z.of_nat (length l0 + length l0))
        with (Z.of_nat (length l0) * 2) by lia.
      rewrite Z.div_mul by discriminate. apply Nat2Z.id. }
    rewrite E3.
    destruct (rehash_loop_returns (length l0) 0 tnew _ l0 Wnew)
      as (t1 & l1 & Hrun & W1 & Hlen1 & Hc1 & Hl1 & Hocc); [lia|exact Hint|].
    exists t1, l1. split; [exact Hrun|]. split; [exact W1|].
    rewrite length_replicate in Hlen1. rewrite occupied_replicate in Hocc.
    rewrite drop_0, firstn_all in Hocc.
    unfold tnew in Hc1, Hl1. cbn [count len] in Hc1, Hl1.
    rewrite Hc1, Hl1, Hlen1, Hc0. unfold n2. repeat split; lia.
  - exists t0, l0. split; [reflexivity|]. split; [exact W0|].
    rewrite Hc0. repeat split; try lia.
    destruct (Z.eq_dec (count t) (Z.of_nat (length l0))) as [E | NE]; [|lia].
    rewrite grow_needed_full in G; [discriminate G | exact HF | lia |].
    rewrite Hc0, E. unfold wrap64, sizeof_entry.
    rewrite Z.mod_small; lia.
Qed.

Lemma read_slot_well_allocated (t : hash_table)
    (l : list hash_table_entry) (i : Z) :
  well_allocated t l -> 0 <= i < Z.of_nat (length l) ->
  exists e, read_slot t i = Done e /\ l !! Z.to_nat i = Some e.
Proof.
  intros (Hb & _) [H1 H2]. unfold read_slot. rewrite Hb.
  apply Z.leb_le in H1 as H1'. apply Z.ltb_lt in H2 as H2'.
  rewrite H1', H2'. cbn [andb].
  destruct (l !! Z.to_nat i) as [e|] eqn:E; [eauto|].
  apply lookup_ge_None in E. lia.
Qed.

(** Probing a well-allocated table stays inside the storage. *)
Lemma probe_loop_no_fault (n : nat) :
  forall (t : hash_table) (l : list hash_table_entry) (k b : Z),
    well_allocated t l -> 0 <= b < Z.of_nat (length l) ->
    probe_loop n t k (Z.of_nat (length l)) b <> Faults.
Proof.
  induction n as [|n IH]; intros t l k b W Hb; [discriminate|].
  cbn [probe_loop].
  destruct (read_slot_well_allocated t l b W Hb) as (e & -> & _).
  cbn [obind]. destruct (valid e); [|discriminate].
  destruct (key e =? k); [discriminate|].
  apply IH; [exact W|]. apply Z.mod_pos_bound. lia.
Qed.

Lemma probe_loop_hangs_everywhere (t : hash_table) (k num_ents b : Z) :
  0 <= b < num_ents ->
  probe_loop (Z.to_nat num_ents) t k num_ents b = Hangs ->
  forall i, 0 <= i < num_ents -> busy t k i.
Proof.
  intros Hb H i Hi. assert (Hpos : 0 < num_ents) by lia.
  pose proof (probe_loop_hangs_busy _ t k num_ents b Hb H
                (Z.to_nat ((i - b) mod num_ents))) as Hbusy.
  pose proof (Z.mod_pos_bound (i - b) num_ents Hpos) as Hj.
  rewrite Z2Nat.id in Hbusy by lia.
  rewrite Zplus_mod_idemp_r in Hbusy.
  replace (b + (i - b)) with i in Hbusy by lia.
  rewrite (Z.mod_small i num_ents) in Hbusy by exact Hi.
  apply Hbusy. lia.
Qed.

(** With a free slot left, probing returns. *)
Lemma probe_loop_returns (t : hash_table) (l : list hash_table_entry)
    (k b : Z) :
  well_allocated t l -> occupied l < Z.of_nat (length l) ->
  0 <= b < Z.of_nat (length l) ->
  exists dest found,
    probe_loop (length l) t k (Z.of_nat (length l)) b = Done (dest, found).
Proof.
  intros W Hfree Hb.
  destruct (probe_loop (length l) t k (Z.of_nat (length l)) b)
    as [[dest found]| |] eqn:E; [eauto | | ].
  - exfalso. rewrite <- (Nat2Z.id (length l)) in E at 1.
    pose proof (probe_loop_hangs_everywhere t k _ b Hb E) as Hall.
    assert (occupied l = Z.of_nat (length l)); [|lia].
    apply occupied_all_valid. intros i Hi.
    destruct (Hall (Z.of_nat i) ltac:(lia)) as (cur & R & V & _).
    destruct (read_slot_well_allocated t l (Z.of_nat i) W ltac:(lia))
      as (e & R' & L).
    rewrite Nat2Z.id in L. exists e. split; [exact L|]. congruence.
  - exfalso. exact (probe_loop_no_fault _ t l k b W Hb E).
Qed.

(** X4.  On a sane table of at most [INT_MAX] slots, which the [int]
    index of the rehash loop can count, and for a growth factor of at most
    1, [hash_table_set] returns, the table is sane again, [hash_table_get]
    reads the value back, and [count] has grown by at most one. *)
Theorem hash_table_set_keeps_sane (F : Q) (t : hash_table) (k v : Z) :
  (F <= 1)%Q -> sane t -> len t <= sizeof_entry * INT_MAX ->
  exists t' : hash_table,
    hash_table_set F (Some t) k v = Done (Some t') /\
    sane t' /\
    hash_table_get (Some t') k = Done v /\
    count t <= count t' <= count t + 1.
Proof.
  intros HF Hsane Hlen.
  destruct (hash_table_unforced_grow_returns F t HF Hsane Hlen)
    as (t1 & l1 & Hgrow & W1 & Hocc & Hroom & Hc1 & Hlen1).
  pose proof W1 as (Hb1 & Hl1 & Hne1).
  destruct (num_slots_well_allocated t1 l1 W1) as [Hn1 Hpos1].
  pose proof (occupied_bounds l1) as Hob.
  pose proof (Z.mod_pos_bound (hash_key k) _ Hpos1) as Hhome.
  assert (Hprobe : exists dest replace,
             hash_table_probe_set t1 k = Done (dest, replace) /\
             0 <= dest < Z.of_nat (length l1) /\
             (replace = true ->
              count t1 <> 0 /\
              exists old, l1 !! Z.to_nat dest = Some old /\
                          valid old = true)).
  { unfold hash_table_probe_set.
    rewrite (map_key_well_allocated t1 l1 k W1). cbn [obind].
    destruct (Z.eqb_spec (count t1) 0) as [Z0 | NZ].
    - eexists _, _. split; [reflexivity|]. split; [exact Hhome|].
      discriminate.
    - rewrite Hn1, Nat2Z.id.
      destruct (probe_loop_returns t1 l1 k _ W1 ltac:(lia) Hhome)
        as (dest & found & Hrun).
      exists dest, found. split; [exact Hrun|].
      split; [eapply probe_loop_in_range; [exact Hpos1 | exact Hhome
                                           | exact Hrun]|].
      intros ->. split; [exact NZ|].
      destruct (probe_loop_stops_at _ _ _ _ _ _ _ Hrun)
        as (cur & R & V & _).
      destruct (read_slot_in_range _ _ _ R) as (l' & Hb' & Hr).
      assert (l' = l1) by congruence. subst l'.
      destruct (read_slot_well_allocated t1 l1 dest W1 Hr) as (e & R' & L).
      exists e. split; [exact L | congruence]. }
  destruct Hprobe as (dest & replace & Hprobe & Hdest & Hrep).
  set (new := {| valid := true; key := k; value := v |}).
  assert (Hwrite : write_slot t1 dest new
                   = Done {| count := count t1; len := len t1;
                             base := Some (<[Z.to_nat dest := new]> l1) |}).
  { unfold write_slot. rewrite Hb1. destruct Hdest as [H1 H2].
    apply Z.leb_le in H1. apply Z.ltb_lt in H2. now rewrite H1, H2. }
  set (c' := if replace then count t1 else wrap64 (count t1 + 1)).
  set (t' := {| count := c'; len := len t1;
                base := Some (<[Z.to_nat dest := new]> l1) |}).
  assert (Hset : hash_table_set F (Some t) k v = Done (Some t')).
  { unfold hash_table_set. rewrite Hgrow. cbn [obind].
    rewrite Hprobe. cbn [obind]. fold new. rewrite Hwrite. cbn [obind].
    unfold t', c'. destruct replace; reflexivity. }
  assert (Hl1' : len t1 = 24 * Z.of_nat (length l1)) by exact Hl1.
  assert (Hwrap : wrap64 (count t1 + 1) = count t1 + 1).
  { unfold wrap64. apply Z.mod_small. lia. }
  assert (W' : well_allocated t' (<[Z.to_nat dest := new]> l1))
    by (apply well_allocated_insert; exact W1).
  destruct (l1 !! Z.to_nat dest) as [old|] eqn:Eold.
  2:{ apply lookup_ge_None in Eold. lia. }
  pose proof (occupied_insert l1 (Z.to_nat dest) new old Eold) as Hins.
  cbn [new valid] in Hins. fold new in Hins.
  assert (Hc' : occupied (<[Z.to_nat dest := new]> l1) <= c' /\
                c' <= Z.of_nat (length l1) /\ c' <> 0 /\
                count t1 <= c' <= count t1 + 1).
  { unfold c'. destruct replace.
    - destruct (Hrep eq_refl) as (NZ & old' & Eold' & V).
      assert (old' = old) by congruence. subst old'.
      rewrite V in Hins. unfold b2z in Hins. lia.
    - rewrite Hwrap. unfold b2z in Hins. destruct (valid old); lia. }
  exists t'. split; [exact Hset|]. split; [|split].
  - unfold sane. unfold t' at 1. cbn [base]. split; [exact W'|].
    unfold t'. cbn [count]. rewrite length_insert. lia.
  - apply (hash_table_get_after_set F t t' k v Hset).
    + unfold t'. cbn [count]. lia.
    + unfold hash_table_num_slots, t'. cbn [len].
      change (len t1 / sizeof_entry) with (hash_table_num_slots (Some t1)).
      rewrite Hn1. unfold sizeof_entry in Hl1. lia.
  - unfold t'. cbn [count]. lia.
Qed.

Lemma hash_table_set_keeps_sane_witness :
  ((1 # 2 <= 1)%Q /\
   sane {| count := 0; len := 0; base := None |} /\
   0 <= sizeof_entry * INT_MAX) /\
  exists t' : hash_table,
    hash_table_set (1 # 2) (Some {| count := 0; len := 0; base := None |})
                   7 70 = Done (Some t') /\
    sane t' /\
    hash_table_get (Some t') 7 = Done 70 /\
    0 <= count t' <= 0 + 1.
Proof.
  assert (H1 : (1 # 2 <= 1)%Q) by (unfold Qle; simpl; lia).
  assert (H2 : sane {| count := 0; len := 0; base := None |})
    by reflexivity.
  assert (H3 : 0 <= sizeof_entry * INT_MAX) by discriminate.
  split; [repeat split; assumption|].
  exact (hash_table_set_keeps_sane (1 # 2)
           {| count := 0; len := 0; base := None |} 7 70 H1 H2 H3).
Defined.

(** X1.  Whenever [hash_table_set] returns and leaves a non-zero [count],
    [hash_table_get] of the key returns the value just stored, whatever
    the table was before: no condition on the old table is needed. *)
Theorem hash_table_set_then_get (F : Q) (t t' : hash_table) (k v : Z) :
  hash_table_set F (Some t) k v = Done (Some t') ->
  count t' <> 0 ->
  0 < hash_table_num_slots (Some t') < 2 ^ 64 ->
  hash_table_get (Some t') k = Done v.
Proof. exact (hash_table_get_after_set F t t' k v). Qed.

Lemma hash_table_set_then_get_witness :
  let t' := {| count := 1; len := 24;
               base := Some [ {| valid := true; key := 7; value := 70 |} ] |} in
  (hash_table_set (1 # 2) (Some {| count := 0; len := 0; base := None |})
                  7 70 = Done (Some t') /\
   count t' <> 0 /\ 0 < hash_table_num_slots (Some t') < 2 ^ 64) /\
  hash_table_get (Some t') 7 = Done 70.
Proof.
  intros t'.
  assert (H1 : hash_table_set (1 # 2)
                 (Some {| count := 0; len := 0; base := None |}) 7 70
               = Done (Some t')) by reflexivity.
  assert (H2 : count t' <> 0) by discriminate.
  assert (H3 : 0 < hash_table_num_slots (Some t') < 2 ^ 64)
    by (split; reflexivity).
  split; [repeat split; assumption|].
  exact (hash_table_set_then_get (1 # 2) _ t' 7 70 H1 H2 H3).
Defined.

(** X2.  After [hash_table_remove] of a key, [hash_table_get] of that key
    finds nothing, whatever the table held: a non-null old value is never
    returned again. *)
Theorem hash_table_remove_then_get (t : hash_table)
    (l : list hash_table_entry) (k : Z) :
  well_allocated t l ->
  exists r' : hash_table_ref,
    hash_table_remove (Some t) k = Done r' /\
    hash_table_get r' k = Done NULL.
Proof. exact (hash_table_get_after_remove t l k). Qed.

Lemma hash_table_remove_then_get_witness :
  let l := [ {| valid := true; key := 0; value := 100 |};
             {| valid := true; key := 2; value := 200 |} ] in
  let t := {| count := 2; len := 48; base := Some l |} in
  well_allocated t l /\
  exists r' : hash_table_ref,
    hash_table_remove (Some t) 2 = Done r' /\
    hash_table_get r' 2 = Done NULL.
Proof.
  intros l t.
  assert (W : well_allocated t l)
    by (repeat split; discriminate).
  split; [exact W|].
  exact (hash_table_remove_then_get t l 2 W).
Defined.

(** X3.  In a table all of whose slots hold valid entries of other keys,
    the probing loop does not stop, whatever the number of rounds it is
    given; with a non-zero [count], [hash_table_get] and the probe of
    [hash_table_set] for that key do not return. *)
Theorem probing_full_table_never_stops (t : hash_table)
    (l : list hash_table_entry) (k : Z) :
  well_allocated t l ->
  (forall i, 0 <= i < Z.of_nat (length l) -> busy t k i) ->
  (forall (fuel : nat) (b : Z),
      0 <= b < Z.of_nat (length l) ->
      probe_loop fuel t k (Z.of_nat (length l)) b = Hangs)
  /\ (count t <> 0 ->
      hash_table_probe_set t k = Hangs /\
      hash_table_get (Some t) k = Hangs).
Proof.
  intros W Hall.
  destruct (num_slots_well_allocated t l W) as [Hn Hpos].
  assert (Hloop : forall (fuel : nat) (b : Z),
             0 <= b < Z.of_nat (length l) ->
             probe_loop fuel t k (Z.of_nat (length l)) b = Hangs).
  { intros fuel b Hb. apply probe_loop_all_busy; assumption. }
  split; [exact Hloop|].
  intros NZ.
  pose proof (Z.mod_pos_bound (hash_key k) _ Hpos) as Hhome.
  assert (Hset : hash_table_probe_set t k = Hangs).
  { unfold hash_table_probe_set.
    rewrite (map_key_well_allocated t l k W). cbn [obind].
    destruct (Z.eqb_spec (count t) 0) as [? | _]; [contradiction|].
    rewrite Hn. apply Hloop. exact Hhome. }
  split; [exact Hset|].
  unfold hash_table_get. destruct W as (Hb & _). rewrite Hb.
  unfold hash_table_probe_get. unfold hash_table_probe_set in Hset.
  destruct (hash_table_map_key (Some t) k) as [home| |]; cbn [obind] in *;
    try discriminate Hset; try reflexivity.
  destruct (count t =? 0); [discriminate Hset|].
  rewrite Hset. reflexivity.
Qed.

Lemma probing_full_table_never_stops_witness :
  let l := [ {| valid := true; key := 0; value := 100 |} ] in
  let t := {| count := 1; len := 24; base := Some l |} in
  (well_allocated t l /\
   (forall i, 0 <= i < Z.of_nat (length l) -> busy t 1 i) /\
   count t <> 0) /\
  hash_table_probe_set t 1 = Hangs /\ hash_table_get (Some t) 1 = Hangs.
Proof.
  intros l t.
  assert (W : well_allocated t l) by (repeat split; discriminate).
  assert (B : forall i, 0 <= i < Z.of_nat (length l) -> busy t 1 i).
  { intros i Hi. assert (i = 0) by (simpl in Hi; lia). subst i.
    exists {| valid := true; key := 0; value := 100 |}.
    repeat split. discriminate. }
  assert (NZ : count t <> 0) by discriminate.
  split; [split; [exact W | split; [exact B | exact NZ]]|].
  exact (proj2 (probing_full_table_never_stops t l 1 W B) NZ).
Defined.

Lemma rehash_two_colliding (c : Z) (e1 e2 : hash_table_entry) :
  valid e1 = true -> valid e2 = true ->
  hash_key (key e1) mod 4 = hash_key (key e2) mod 4 ->
  hash_table_rehash
    {| count := c; len := 96;
       base := Some (replicate 4 hash_table_invalid_entry) |}
    [e1; e2]
  = Done {| count := c; len := 96;
            base := Some (<[Z.to_nat (hash_key (key e2) mod 4) := e2]>
                            (replicate 4 hash_table_invalid_entry)) |}.
Proof.
  intros V1 V2 Hcol.
  set (l := replicate 4 hash_table_invalid_entry).
  set (t := {| count := c; len := 96; base := Some l |}).
  assert (W : well_allocated t l) by (repeat split; discriminate).
  unfold hash_table_rehash. unfold t at 1. cbn [base].
  change (Z.to_nat (hash_table_num_slots (Some t) / 2)) with 2%nat.
  cbn [rehash_loop].
  change ([e1; e2] !! Z.to_nat 0) with (Some e1).
  change ([e1; e2] !! Z.to_nat (0 + 1)) with (Some e2).
  cbv beta iota. rewrite V1, V2.
  rewrite (map_key_well_allocated t l (key e1) W). cbn [obind].
  rewrite (write_slot_home t l (hash_key (key e1)) e1 W). cbn [obind].
  change (Z.of_nat (length l)) with 4.
  set (h1 := Z.to_nat (hash_key (key e1) mod 4)).
  set (t1 := {| count := count t; len := len t;
                base := Some (<[h1 := e1]> l) |}).
  assert (W1 : well_allocated t1 (<[h1 := e1]> l))
    by (apply well_allocated_insert; exact W).
  rewrite (map_key_well_allocated t1 _ (key e2) W1). cbn [obind].
  rewrite (write_slot_home t1 _ (hash_key (key e2)) e2 W1). cbn [obind].
  rewrite length_insert. change (Z.of_nat (length l)) with 4.
  unfold h1. rewrite Hcol. rewrite list_insert_insert_eq. reflexivity.
Qed.

(** X5.  [hash_table_rehash] writes every valid entry to its home slot in
    the new storage without probing: of two valid entries with the same
    home slot only the second is in the new table, whatever their keys. *)
Theorem hash_table_rehash_drops_collision (c : Z)
    (e1 e2 : hash_table_entry) :
  valid e1 = true -> valid e2 = true ->
  hash_key (key e1) mod 4 = hash_key (key e2) mod 4 ->
  hash_table_rehash
    {| count := c; len := 96;
       base := Some (replicate 4 hash_table_invalid_entry) |}
    [e1; e2]
  = Done {| count := c; len := 96;
            base := Some (<[Z.to_nat (hash_key (key e2) mod 4) := e2]>
                            (replicate 4 hash_table_invalid_entry)) |}.
Proof. exact (rehash_two_colliding c e1 e2). Qed.

Lemma hash_table_rehash_drops_collision_witness :
  let e1 := {| valid := true; key := 0; value := 100 |} in
  let e2 := {| valid := true; key := 2; value := 200 |} in
  (valid e1 = true /\ valid e2 = true /\
   hash_key (key e1) mod 4 = hash_key (key e2) mod 4) /\
  hash_table_rehash
    {| count := 2; len := 96;
       base := Some (replicate 4 hash_table_invalid_entry) |}
    [e1; e2]
  = Done {| count := 2; len := 96;
            base := Some (<[Z.to_nat (hash_key (key e2) mod 4) := e2]>
                            (replicate 4 hash_table_invalid_entry)) |}.
Proof.
  intros e1 e2. split; [repeat split|].
  exact (hash_table_rehash_drops_collision 2 e1 e2 eq_refl eq_refl eq_refl).
Defined.

Lemma lxor_below_2_64 (a b : Z) :
  0 <= a < 2 ^ 64 -> 0 <= b < 2 ^ 64 -> 0 <= Z.lxor a b < 2 ^ 64.
Proof.
  intros Ha Hb.
  assert (H0 : 0 <= Z.lxor a b) by (apply Z.lxor_nonneg; lia).
  split; [exact H0|].
  destruct (Z.eq_dec (Z.lxor a b) 0) as [-> | NZ]; [reflexivity|].
  apply Z.log2_lt_pow2; [lia|].
  eapply Z.le_lt_trans; [apply Z.log2_lxor; lia|].
  apply Z.max_lub_lt.
  - destruct (Z.eq_dec a 0) as [-> | ?]; [reflexivity|].
    apply Z.log2_lt_pow2; lia.
  - destruct (Z.eq_dec b 0) as [-> | ?]; [reflexivity|].
    apply Z.log2_lt_pow2; lia.
Qed.

Lemma hash_key_range (k : Z) : 0 <= hash_key k < 2 ^ 64.
Proof.
  unfold hash_key.
  set (k1 := wrap64 (Z.lxor (Z.shiftr k 16) k * 73244475)).
  set (k2 := wrap64 (Z.lxor (Z.shiftr k1 16) k1 * 73244475)).
  assert (H2 : 0 <= k2 < 2 ^ 64)
    by (unfold k2, wrap64; apply Z.mod_pos_bound; reflexivity).
  apply lxor_below_2_64; [|exact H2].
  rewrite Z.shiftr_div_pow2 by lia. split.
  - apply Z.div_pos; lia.
  - apply Z.le_lt_trans with k2; [|lia].
    apply Z.div_le_upper_bound; lia.
Qed.

(** X6.  [hash_key] returns a 64-bit value for every argument: its last
    line cannot overflow.  On a well-allocated table the index that
    [hash_table_map_key] computes is the index of a slot of the storage,
    so reading that slot is a valid access; on a table of less than one
    slot the remainder is a division by zero. *)
Theorem hash_table_map_key_in_storage (k : Z) :
  0 <= hash_key k < 2 ^ 64
  /\ (forall (t : hash_table) (l : list hash_table_entry),
        well_allocated t l ->
        exists (i : Z) (e : hash_table_entry),
          hash_table_map_key (Some t) k = Done i /\
          0 <= i < Z.of_nat (length l) /\
          read_slot t i = Done e /\ l !! Z.to_nat i = Some e)
  /\ (forall t : hash_table,
        0 <= len t < sizeof_entry ->
        hash_table_map_key (Some t) k = Faults).
Proof.
  split; [exact (hash_key_range k)|]. split.
  - intros t l W.
    destruct (num_slots_well_allocated t l W) as [_ Hpos].
    pose proof (Z.mod_pos_bound (hash_key k) _ Hpos) as Hhome.
    destruct (read_slot_well_allocated t l _ W Hhome) as (e & R & L).
    exists (hash_key k mod Z.of_nat (length l)), e.
    split; [exact (map_key_well_allocated t l k W)|].
    split; [exact Hhome|]. split; assumption.
  - intros t Hlen. unfold hash_table_map_key, hash_table_num_slots.
    rewrite (Z.div_small (len t) sizeof_entry Hlen). reflexivity.
Qed.

Lemma hash_table_map_key_in_storage_witness :
  let l := [ {| valid := true; key := 0; value := 100 |};
             hash_table_invalid_entry ] in
  let t := {| count := 1; len := 48; base := Some l |} in
  (well_allocated t l /\
   0 <= len {| count := 0; len := 0; base := None |} < sizeof_entry) /\
  (exists (i : Z) (e : hash_table_entry),
      hash_table_map_key (Some t) 5 = Done i /\
      0 <= i < Z.of_nat (length l) /\
      read_slot t i = Done e /\ l !! Z.to_nat i = Some e) /\
  hash_table_map_key (Some {| count := 0; len := 0; base := None |}) 5 = Faults.
Proof.
  intros l t.
  assert (W : well_allocated t l) by (repeat split; discriminate).
  assert (H0 : 0 <= len {| count := 0; len := 0; base := None |} < sizeof_entry)
    by (split; [discriminate|reflexivity]).
  split; [split; assumption|]. split.
  - exact (proj1 (proj2 (hash_table_map_key_in_storage 5)) t l W).
  - exact (proj2 (proj2 (hash_table_map_key_in_storage 5)) _ H0).
Defined.

(** X7.  [hash_table_remove] of a key whose home slot is already free
    removes nothing, yet it decrements [count]; from a [count] of 0 the
    result is [2^64 - 1]. *)
Theorem hash_table_remove_free_slot (t : hash_table)
    (l : list hash_table_entry) (k : Z) (e : hash_table_entry) :
  well_allocated t l ->
  l !! Z.to_nat (hash_key k mod Z.of_nat (length l)) = Some e ->
  valid e = false ->
  exists l',
    hash_table_remove (Some t) k
    = Done (Some {| count := wrap64 (count t - 1); len := len t;
                    base := Some l' |}) /\
    occupied l' = occupied l /\
    (count t = 0 -> wrap64 (count t - 1) = UINT64_MAX).
Proof.
  intros W He V. pose proof W as (Hb & _).
  exists (<[Z.to_nat (hash_key k mod Z.of_nat (length l))
            := hash_table_invalid_entry]> l).
  split; [|split].
  - unfold hash_table_remove. rewrite Hb.
    rewrite (map_key_well_allocated t l k W). cbn [obind].
    rewrite (write_slot_home t l (hash_key k) _ W). reflexivity.
  - rewrite (occupied_insert l _ hash_table_invalid_entry e He).
    rewrite V. unfold b2z. cbn [valid hash_table_invalid_entry]. lia.
  - intros ->. reflexivity.
Qed.

Lemma hash_table_remove_free_slot_witness :
  let l := [ hash_table_invalid_entry;
             {| valid := true; key := 2; value := 200 |} ] in
  let t := {| count := 0; len := 48; base := Some l |} in
  (well_allocated t l /\
   l !! Z.to_nat (hash_key 2 mod Z.of_nat (length l))
   = Some hash_table_invalid_entry /\
   valid hash_table_invalid_entry = false) /\
  exists l',
    hash_table_remove (Some t) 2
    = Done (Some {| count := wrap64 (count t - 1); len := len t;
                    base := Some l' |}) /\
    occupied l' = occupied l /\
    (count t = 0 -> wrap64 (count t - 1) = UINT64_MAX).
Proof.
  intros l t.
  assert (W : well_allocated t l) by (repeat split; discriminate).
  split; [split; [exact W | split; reflexivity]|].
  exact (hash_table_remove_free_slot t l 2 hash_table_invalid_entry
           W eq_refl eq_refl).
Defined.

Lemma get_with_free_slot (t : hash_table)
    (l : list hash_table_entry) (k : Z) :
  well_allocated t l -> occupied l < Z.of_nat (length l) ->
  (exists v, hash_table_get (Some t) k = Done v)
  /\ (count t <> 0 ->
      (forall (i : nat) (e : hash_table_entry),
          l !! i = Some e -> valid e = true -> key e <> k) ->
      hash_table_get (Some t) k = Done NULL).
Proof.
  intros W Hfree. pose proof W as (Hb & _).
  destruct (num_slots_well_allocated t l W) as [Hn Hpos].
  pose proof (Z.mod_pos_bound (hash_key k) _ Hpos) as Hhome.
  destruct (probe_loop_returns t l k _ W Hfree Hhome)
    as (dest & found & Hrun).
  pose proof (probe_loop_in_range _ _ _ _ _ _ _ Hpos Hhome Hrun) as Hdest.
  unfold hash_table_get. rewrite Hb. unfold hash_table_probe_get.
  rewrite (map_key_well_allocated t l k W). cbn [obind].
  rewrite Hn, Nat2Z.id, Hrun. cbn [obind snd fst].
  split.
  - destruct (count t =? 0).
    + cbn [obind]. destruct (_ =? UINT64_MAX); [eauto|].
      destruct (read_slot_well_allocated t l _ W Hhome) as (e & -> & _).
      cbn [obind]. eauto.
    + destruct found; cbn [obind]; [|eauto].
      destruct (dest =? UINT64_MAX); [eauto|].
      destruct (read_slot_well_allocated t l _ W Hdest) as (e & -> & _).
      cbn [obind]. eauto.
  - intros NZ Hmiss.
    destruct (Z.eqb_spec (count t) 0) as [? | _]; [contradiction|].
    destruct found; [|reflexivity]. exfalso.
    destruct (probe_loop_stops_at _ _ _ _ _ _ _ Hrun) as (cur & R & V & K).
    destruct (read_slot_well_allocated t l _ W Hdest) as (e & R' & L).
    assert (cur = e) by congruence. subst cur.
    exact (Hmiss _ e L V K).
Qed.

(** X8.  On a well-allocated table with a free slot [hash_table_get]
    returns for every key, and for a key that no valid entry holds it
    returns [NULL], provided [count] is not 0. *)
Theorem hash_table_get_returns (t : hash_table)
    (l : list hash_table_entry) (k : Z) :
  well_allocated t l -> occupied l < Z.of_nat (length l) ->
  (exists v, hash_table_get (Some t) k = Done v)
  /\ (count t <> 0 ->
      (forall (i : nat) (e : hash_table_entry),
          l !! i = Some e -> valid e = true -> key e <> k) ->
      hash_table_get (Some t) k = Done NULL).
Proof. exact (get_with_free_slot t l k). Qed.

Lemma hash_table_get_returns_witness :
  let l := [ {| valid := true; key := 0; value := 100 |};
             hash_table_invalid_entry ] in
  let t := {| count := 1; len := 48; base := Some l |} in
  (well_allocated t l /\ occupied l < Z.of_nat (length l) /\
   count t <> 0 /\
   (forall (i : nat) (e : hash_table_entry),
       l !! i = Some e -> valid e = true -> key e <> 5)) /\
  hash_table_get (Some t) 5 = Done NULL.
Proof.
  intros l t.
  assert (W : well_allocated t l) by (repeat split; discriminate).
  assert (Hfree : occupied l < Z.of_nat (length l)) by reflexivity.
  assert (NZ : count t <> 0) by discriminate.
  assert (Hmiss : forall (i : nat) (e : hash_table_entry),
             l !! i = Some e -> valid e = true -> key e <> 5).
  { intros [|[|i]] e H V; try discriminate H.
    - injection H as <-. discriminate.
    - injection H as <-. discriminate V. }
  split; [split; [exact W | split; [exact Hfree | split;
                                     [exact NZ | exact Hmiss]]]|].
  exact (proj2 (hash_table_get_returns t l 5 W Hfree) NZ Hmiss).
Defined.

(** X9.  While [count] is 0, [hash_table_get] does not compare keys: it
    returns the value stored in the home slot of the key, whichever key
    that slot holds. *)
Theorem hash_table_get_count_zero (t : hash_table)
    (l : list hash_table_entry) (k : Z) (e : hash_table_entry) :
  well_allocated t l -> count t = 0 ->
  Z.of_nat (length l) < 2 ^ 64 ->
  l !! Z.to_nat (hash_key k mod Z.of_nat (length l)) = Some e ->
  hash_table_get (Some t) k = Done (value e).
Proof.
  intros W Hc Hsmall He. pose proof W as (Hb & _).
  destruct (num_slots_well_allocated t l W) as [Hn Hpos].
  pose proof (Z.mod_pos_bound (hash_key k) _ Hpos) as Hhome.
  unfold hash_table_get. rewrite Hb. unfold hash_table_probe_get.
  rewrite (map_key_well_allocated t l k W). cbn [obind].
  rewrite Hc. cbn [Z.eqb obind].
  destruct (Z.eqb_spec (hash_key k mod Z.of_nat (length l)) UINT64_MAX)
    as [E | _]; [unfold UINT64_MAX in E; lia|].
  destruct (read_slot_well_allocated t l _ W Hhome) as (e' & -> & L).
  cbn [obind]. congruence.
Qed.

Lemma hash_table_get_count_zero_witness :
  let l := [ hash_table_invalid_entry;
             {| valid := true; key := 2; value := 200 |} ] in
  let t := {| count := 0; len := 48; base := Some l |} in
  (well_allocated t l /\ count t = 0 /\ Z.of_nat (length l) < 2 ^ 64 /\
   l !! Z.to_nat (hash_key 1 mod Z.of_nat (length l))
   = Some {| valid := true; key := 2; value := 200 |}) /\
  hash_table_get (Some t) 1 = Done 200.
Proof.
  intros l t.
  assert (W : well_allocated t l) by (repeat split; discriminate).
  split; [split; [exact W | repeat split]|].
  exact (hash_table_get_count_zero t l 1 _ W eq_refl eq_refl eq_refl).
Defined.

(** X10.  The first insertion into a fresh table, for a positive growth
    factor: the storage gets its single slot, which holds the entry, and
    [count] is 1.  Before it, [hash_table_get] returns [NULL] and
    [hash_table_remove] changes nothing, as they do on a null table. *)
Theorem hash_table_first_insertion (F : Q) (k v : Z) :
  (0 < F)%Q ->
  hash_table_set F hash_table_create k v
  = Done (Some {| count := 1; len := 24;
                  base := Some [ {| valid := true; key := k;
                                    value := v |} ] |})
  /\ hash_table_get hash_table_create k = Done NULL
  /\ hash_table_remove hash_table_create k = Done hash_table_create
  /\ hash_table_get None k = Done NULL
  /\ hash_table_remove None k = Done None
  /\ hash_table_set F None k v = Done None.
Proof.
  intros HF. split; [|repeat split].
  unfold hash_table_create, hash_table_set, hash_table_unforced_grow.
  rewrite grow_needed_empty; [|exact HF|reflexivity|reflexivity].
  cbn [ensure_base base count len obind].
  unfold hash_table_probe_set.
  set (t0 := {| count := 0; len := sizeof_entry;
                base := Some [hash_table_invalid_entry] |}).
  assert (W : well_allocated t0 [hash_table_invalid_entry])
    by (repeat split; discriminate).
  rewrite (map_key_well_allocated t0 _ k W). cbn [obind].
  change (count t0 =? 0) with true. cbv iota.
  change (Z.of_nat (length [hash_table_invalid_entry])) with 1.
  rewrite Z.mod_1_r. reflexivity.
Qed.

Lemma hash_table_first_insertion_witness :
  (0 < 1 # 2)%Q /\
  hash_table_set (1 # 2) hash_table_create 9 90
  = Done (Some {| count := 1; len := 24;
                  base := Some [ {| valid := true; key := 9;
                                    value := 90 |} ] |}).
Proof.
  assert (H : (0 < 1 # 2)%Q) by reflexivity.
  split; [exact H|].
  exact (proj1 (hash_table_first_insertion (1 # 2) 9 90 H)).
Defined.

End HashTableInvariantFacts.

(** ** The hash table: what growth loses *)

Section HashTableGrowthFacts.
Import HashTable HashTableInvariant.
Local Open Scope Z_scope.

Lemma get_two_slots (e1 e2 : hash_table_entry) (c : Z) :
  valid e1 = true -> valid e2 = true -> key e1 <> key e2 -> c <> 0 ->
  hash_table_get (Some {| count := c; len := 48; base := Some [e1; e2] |})
                 (key e1)
  = Done (value e1).
Proof.
  intros V1 V2 NE NZ.
  set (t := {| count := c; len := 48; base := Some [e1; e2] |}).
  assert (W : well_allocated t [e1; e2]) by (repeat split; discriminate).
  unfold hash_table_get. cbn [base t]. unfold hash_table_probe_get.
  rewrite (map_key_well_allocated t _ _ W). cbn [obind].
  destruct (Z.eqb_spec (count t) 0) as [? | _]; [contradiction|].
  change (hash_table_num_slots (Some t)) with 2.
  change (Z.of_nat (length [e1; e2])) with 2.
  change (Z.to_nat 2) with 2%nat.
  assert (R0 : read_slot t 0 = Done e1) by reflexivity.
  assert (R1 : read_slot t 1 = Done e2) by reflexivity.
  assert (K : (key e2 =? key e1) = false) by (apply Z.eqb_neq; congruence).
  pose proof (Z.mod_pos_bound (hash_key (key e1)) 2 eq_refl) as Hb.
  assert (Hc : hash_key (key e1) mod 2 = 0 \/ hash_key (key e1) mod 2 = 1)
    by lia.
  destruct Hc as [-> | ->]; cbn [probe_loop].
  - rewrite R0. cbn [obind]. rewrite V1, Z.eqb_refl. cbn [obind snd fst].
    change (0 =? UINT64_MAX) with false. cbv beta iota.
    rewrite R0. reflexivity.
  - rewrite R1. cbn [obind]. rewrite V2, K.
    change ((1 + 1) mod 2) with 0.
    rewrite R0. cbn [obind]. rewrite V1, Z.eqb_refl. cbn [obind snd fst].
    change (0 =? UINT64_MAX) with false. cbv beta iota.
    rewrite R0. reflexivity.
Qed.

(** X27.  A call of [hash_table_set] that grows the table can lose a key
    stored before: two entries of a full two-slot table whose keys have
    the same home slot among four cannot both survive the growth, and
    after the call [hash_table_get] returns [NULL] for the first key,
    which it found before the call. *)
Theorem hash_table_set_growth_loses_key (F : Q)
    (e1 e2 : hash_table_entry) (k v : Z) :
  (F <= 1)%Q ->
  valid e1 = true -> valid e2 = true -> key e1 <> key e2 ->
  hash_key (key e1) mod 4 = hash_key (key e2) mod 4 ->
  k <> key e1 ->
  let t := {| count := 2; len := 48; base := Some [e1; e2] |} in
  hash_table_get (Some t) (key e1) = Done (value e1) /\
  exists t' : hash_table,
    hash_table_set F (Some t) k v = Done (Some t') /\
    hash_table_get (Some t') (key e1) = Done NULL.
Proof.
  intros HF V1 V2 NE Hcol Hk t.
  split; [apply get_two_slots; [assumption..|discriminate]|].
  set (h := Z.to_nat (hash_key (key e2) mod 4)).
  set (l0 := replicate 4 hash_table_invalid_entry).
  set (l1 := <[h := e2]> l0).
  set (t1 := {| count := 2; len := 96; base := Some l1 |}).
  assert (Hh : (h < 4)%nat).
  { unfold h.
    pose proof (Z.mod_pos_bound (hash_key (key e2)) 4 eq_refl). lia. }
  assert (Hgrow : hash_table_unforced_grow F t = Done t1).
  { unfold hash_table_unforced_grow.
    change (ensure_base t) with t.
    rewrite (grow_needed_full F t HF); [|discriminate|reflexivity].
    cbn [base t len count].
    change (wrap64 (48 * 2)) with 96.
    change (Z.to_nat (wrap64 (2 * 48) / sizeof_entry)) with 4%nat.
    exact (rehash_two_colliding 2 e1 e2 V1 V2 Hcol). }
  assert (Hlen1 : length l1 = 4%nat)
    by (unfold l1; rewrite length_insert; reflexivity).
  assert (W1 : well_allocated t1 l1).
  { split; [reflexivity|]. split; [cbn [len t1]; rewrite Hlen1; reflexivity|].
    intros E. rewrite E in Hlen1. discriminate. }
  assert (Hold : l0 !! h = Some hash_table_invalid_entry)
    by (apply lookup_replicate; split; [reflexivity|exact Hh]).
  assert (Hocc1 : occupied l1 = 1).
  { unfold l1. rewrite (occupied_insert l0 h e2 _ Hold).
    unfold l0. rewrite occupied_replicate, V2. reflexivity. }
  destruct (num_slots_well_allocated t1 l1 W1) as [Hn Hpos].
  pose proof (Z.mod_pos_bound (hash_key k) _ Hpos) as Hhome.
  assert (Hfree1 : occupied l1 < Z.of_nat (length l1))
    by (rewrite Hocc1, Hlen1; reflexivity).
  destruct (probe_loop_returns t1 l1 k _ W1 Hfree1 Hhome)
    as (dest & found & Hrun).
  pose proof (probe_loop_in_range _ _ _ _ _ _ _ Hpos Hhome Hrun) as Hdest.
  set (new := {| valid := true; key := k; value := v |}).
  set (l2 := <[Z.to_nat dest := new]> l1).
  set (c2 := if found then 2 else wrap64 (2 + 1)).
  exists {| count := c2; len := 96; base := Some l2 |}.
  split.
  - unfold hash_table_set. rewrite Hgrow. cbn [obind].
    unfold hash_table_probe_set.
    rewrite (map_key_well_allocated t1 l1 k W1). cbn [obind].
    change (count t1 =? 0) with false. cbv iota.
    rewrite Hn, Nat2Z.id, Hrun. cbn [obind].
    unfold write_slot. cbn [base t1].
    replace ((0 <=? dest) && (dest <? Z.of_nat (length l1))) with true
      by (symmetry; apply andb_true_intro; split;
          [apply Z.leb_le|apply Z.ltb_lt]; lia).
    cbn [obind]. unfold c2. destruct found; reflexivity.
  - set (t2 := {| count := c2; len := 96; base := Some l2 |}).
    assert (W2 : well_allocated t2 l2)
      by exact (well_allocated_insert t1 l1 c2 (Z.to_nat dest) new W1).
    assert (Hd : exists old, l1 !! Z.to_nat dest = Some old).
    { apply lookup_lt_is_Some. lia. }
    destruct Hd as (old & Hd).
    assert (Hocc2 : occupied l2 < Z.of_nat (length l2)).
    { unfold l2. rewrite (occupied_insert l1 _ new old Hd).
      rewrite length_insert, Hlen1, Hocc1.
      unfold b2z. destruct (valid old); cbn; lia. }
    destruct (get_with_free_slot t2 l2 (key e1) W2 Hocc2) as [_ Hnull].
    apply Hnull.
    + unfold c2. cbn [count t2]. destruct found; discriminate.
    + intros i e Hi Hv. unfold l2 in Hi.
      destruct (decide (Z.to_nat dest = i)) as [<- | Hne].
      * rewrite list_lookup_insert_eq in Hi by lia.
        injection Hi as <-. exact Hk.
      * rewrite list_lookup_insert_ne in Hi by exact Hne.
        unfold l1 in Hi.
        destruct (decide (h = i)) as [<- | Hne'].
        -- rewrite list_lookup_insert_eq in Hi
             by (unfold l0; rewrite length_replicate; exact Hh).
           injection Hi as <-. congruence.
        -- rewrite list_lookup_insert_ne in Hi by exact Hne'.
           apply lookup_replicate in Hi as [-> _]. discriminate.
Qed.

Lemma hash_table_set_growth_loses_key_witness :
  let e1 := {| valid := true; key := 0; value := 100 |} in
  let e2 := {| valid := true; key := 2; value := 200 |} in
  let t := {| count := 2; len := 48; base := Some [e1; e2] |} in
  ((1 <= 1)%Q /\ valid e1 = true /\ valid e2 = true /\ key e1 <> key e2 /\
   hash_key (key e1) mod 4 = hash_key (key e2) mod 4 /\ 7 <> key e1) /\
  hash_table_get (Some t) (key e1) = Done (value e1) /\
  exists t' : hash_table,
    hash_table_set 1 (Some t) 7 700 = Done (Some t') /\
    hash_table_get (Some t') (key e1) = Done NULL.
Proof.
  intros e1 e2 t.
  assert (HF : (1 <= 1)%Q) by (unfold Qle; simpl; lia).
  assert (NE : key e1 <> key e2) by discriminate.
  assert (Hk : 7 <> key e1) by discriminate.
  split; [repeat split; assumption|].
  exact (hash_table_set_growth_loses_key 1 e1 e2 7 700 HF eq_refl eq_refl
           NE eq_refl Hk).
Defined.

End HashTableGrowthFacts.

(** ** Thread records and thread objects *)

Section ThreadOpsFacts.
Import Thread ThreadOps.
Local Open Scope Z_scope.

(** X11.  [threads_equal] is an equivalence on thread references, null or
    not: a null reference equals only a null one, and two threads are
    equal exactly when their owners are.  [thread_copy] copies [is_alive],
    [start_routine], [arg] and [owner] and leaves [tid] and [state] as
    they are in the block it was given, so the copy is equal to the
    original for [threads_equal] even where it is not the same record. *)
Theorem threads_equal_equivalence :
  (forall a : option thread, threads_equal a a = true)
  /\ (forall a b : option thread, threads_equal a b = threads_equal b a)
  /\ (forall a b c : option thread,
        threads_equal a b = true -> threads_equal b c = true ->
        threads_equal a c = true)
  /\ (forall a : thread,
        threads_equal None (Some a) = false /\
        threads_equal (Some a) None = false)
  /\ (forall a b : thread,
        threads_equal (Some a) (Some b) = true <-> owner a = owner b)
  /\ (forall block a : thread,
        exists c : thread,
          thread_copy (Some block) (Some a) = Done (Some c) /\
          is_alive c = is_alive a /\
          start_routine c = start_routine a /\
          arg c = arg a /\ owner c = owner a /\
          tid c = tid block /\ state c = state block /\
          threads_equal (Some c) (Some a) = true /\
          (tid block <> tid a \/ state block <> state a -> c <> a)).
Proof.
  split; [|split; [|split; [|split; [|split]]]].
  - intros [a|]; [apply Z.eqb_refl | reflexivity].
  - intros [a|] [b|]; try reflexivity. apply Z.eqb_sym.
  - intros [a|] [b|] [c|]; simpl; try congruence.
    unfold pthread_equal. rewrite !Z.eqb_eq. congruence.
  - intros a. split; reflexivity.
  - intros a b. apply Z.eqb_eq.
  - intros block a. eexists. split; [reflexivity|].
    cbn [is_alive start_routine arg owner tid state].
    repeat (split; [reflexivity|]).
    split; [apply Z.eqb_refl|].
    intros [H | H] E; apply H; rewrite <- E; reflexivity.
Qed.

Lemma threads_equal_equivalence_witness :
  let a := {| tid := 1; owner := 7; arg := 0; start_routine := 0;
              state := THREAD_ALIVE; is_alive := true |} in
  let b := {| tid := 2; owner := 7; arg := 9; start_routine := 8;
              state := THREAD_DEAD; is_alive := false |} in
  ((threads_equal (Some a) (Some b) = true /\
    threads_equal (Some b) (Some a) = true) /\
   threads_equal (Some a) (Some a) = true)
  /\ ((tid b <> tid a \/ state b <> state a) /\
      exists c : thread,
        thread_copy (Some b) (Some a) = Done (Some c) /\
        threads_equal (Some c) (Some a) = true /\ c <> a).
Proof.
  intros a b. split.
  - split; [split; reflexivity|].
    exact (proj1 (proj2 (proj2 threads_equal_equivalence))
             (Some a) (Some b) (Some a) eq_refl eq_refl).
  - assert (H : tid b <> tid a \/ state b <> state a)
      by (left; discriminate).
    split; [exact H|].
    destruct (proj2 (proj2 (proj2 (proj2 (proj2
                threads_equal_equivalence)))) b a)
      as (c & Hc & _ & _ & _ & _ & _ & _ & He & Hne).
    exists c. split; [exact Hc|]. split; [exact He | exact (Hne H)].
Defined.

(** X12.  The second argument of [thread_operation_enabled] is only
    tested for null; a join on a thread that [thread_create] has just made
    is not enabled, and copying the target of an operation does not change
    whether the operation is enabled. *)
Theorem thread_operation_enabled_target_only :
  (forall (top : thread_operation) (t1 t2 : thread),
      thread_operation_enabled (Some top) (Some t1)
      = thread_operation_enabled (Some top) (Some t2))
  /\ (forall (block : thread) (pthread : Z) (th : thread),
        thread_operation_enabled
          (Some {| type := THREAD_JOIN;
                   target := thread_create (Some block) pthread |})
          (Some th)
        = Done false)
  /\ (forall (ty : thread_operation_type) (block tgt tgt' th : thread),
        thread_copy (Some block) (Some tgt) = Done (Some tgt') ->
        thread_operation_enabled
          (Some {| type := ty; target := Some tgt' |}) (Some th)
        = thread_operation_enabled
            (Some {| type := ty; target := Some tgt |}) (Some th)).
Proof.
  split; [|split].
  - reflexivity.
  - reflexivity.
  - intros ty block tgt tgt' th H. injection H as <-. reflexivity.
Qed.

Lemma thread_operation_enabled_target_only_witness :
  let tgt := {| tid := 1; owner := 7; arg := 0; start_routine := 0;
                state := THREAD_ALIVE; is_alive := true |} in
  thread_copy (Some tgt) (Some tgt) = Done (Some tgt) /\
  thread_operation_enabled
    (Some {| type := THREAD_JOIN; target := Some tgt |}) (Some tgt)
  = thread_operation_enabled
      (Some {| type := THREAD_JOIN; target := Some tgt |}) (Some tgt).
Proof.
  intros tgt. split; [reflexivity|].
  exact (proj2 (proj2 thread_operation_enabled_target_only)
           THREAD_JOIN tgt tgt tgt tgt eq_refl).
Defined.

End ThreadOpsFacts.

Section ThreadObjectFacts.
Import ThreadObject.

(** X13.  A new thread object is an embryo and is not starved.  The copy
    constructor keeps the object ID, the thread ID, the shadow and
    [_maybeStarved] but not [_hasEncounteredProgressGoal]: a copy is
    reported starved exactly when the original is marked as maybe starved,
    so every starved thread has a starved copy, and a thread that has met
    its progress goal while marked has a starved copy without being
    starved.  After [markThreadAsLive] neither the thread nor its copy is
    starved. *)
Theorem MCThread_copy_starvation :
  (forall id tid0 arg0 routine sysid : Z,
      state (threadShadow (MCThread_new id tid0 arg0 routine sysid)) = embryo
      /\ isThreadStarved (MCThread_new id tid0 arg0 routine sysid) = false)
  /\ (forall t : MCThread,
        objectId (MCThread_copy t) = objectId t /\
        tid (MCThread_copy t) = tid t /\
        threadShadow (MCThread_copy t) = threadShadow t /\
        isThreadStarved (MCThread_copy t) = _maybeStarved t)
  /\ (forall t : MCThread,
        isThreadStarved t = true -> isThreadStarved (MCThread_copy t) = true)
  /\ (forall t : MCThread,
        _maybeStarved t = true -> _hasEncounteredProgressGoal t = true ->
        isThreadStarved t = false /\
        isThreadStarved (MCThread_copy t) = true)
  /\ (forall t : MCThread,
        isThreadStarved (markThreadAsLive t) = false /\
        isThreadStarved (MCThread_copy (markThreadAsLive t)) = false /\
        isThreadStarved (markThreadAsMaybeStarved t)
        = negb (_hasEncounteredProgressGoal t)).
Proof.
  split; [|split; [|split; [|split]]].
  - intros. split; reflexivity.
  - intros t. repeat (split; [reflexivity|]).
    unfold isThreadStarved, MCThread_copy. simpl. apply andb_true_r.
  - intros t. unfold isThreadStarved, MCThread_copy. simpl.
    destruct (_maybeStarved t); [reflexivity | discriminate].
  - intros t H H0. unfold isThreadStarved, MCThread_copy. simpl.
    rewrite H, H0. split; reflexivity.
  - intros t. repeat split.
Qed.

Lemma MCThread_copy_starvation_witness :
  let t := {| objectId := 1;
              threadShadow := MCThreadShadow_new 0 0 7;
              _hasEncounteredProgressGoal := true;
              _maybeStarved := true;
              tid := 1 |} in
  (_maybeStarved t = true /\ _hasEncounteredProgressGoal t = true) /\
  isThreadStarved t = false /\ isThreadStarved (MCThread_copy t) = true.
Proof.
  intros t. split; [split; reflexivity|].
  exact (proj1 (proj2 (proj2 (proj2 MCThread_copy_starvation)))
           t eq_refl eq_refl).
Defined.

End ThreadObjectFacts.

(** ** Reading a cond-enqueue *)

Section CondEnqueueReadFacts.
Import Transitions CondEnqueueRead.
Local Open Scope Z_scope.

Variable getConditionVariableWithSystemIdentity :
  Z -> option MCConditionVariable.
Variable getMutexWithSystemIdentity : Z -> option MCMutex.
Variable getThreadWithId : Z -> MCThread.
Variable isDestroyed : MCConditionVariable -> bool.

Abbreviation MCRead :=
  (MCReadCondEnqueue getConditionVariableWithSystemIdentity
     getMutexWithSystemIdentity getThreadWithId isDestroyed).

(** X14.  [MCReadCondEnqueue] returns a transition exactly when the
    condition variable and the mutex are known, the condition variable is
    not destroyed, and the condition variable has no associated mutex or
    has the given one; the transition then carries these two objects and
    the thread that ran.  So the mutex of a transition it returns never
    differs from the mutex already associated with its condition variable,
    and an unknown condition variable is reported before anything else is
    looked at. *)
Theorem MCReadCondEnqueue_accepts (shmTransition : MCSharedTransition)
    (shmData : MCSharedMemoryConditionVariable) :
  (forall e : MCCondEnqueue,
      MCRead shmTransition shmData = Read e <->
      exists (c : MCConditionVariable) (m : MCMutex),
        getConditionVariableWithSystemIdentity (shm_cond shmData) = Some c /\
        getMutexWithSystemIdentity (shm_mutex shmData) = Some m /\
        isDestroyed c = false /\
        (mutex c = None \/ MCMutex_eq (Some m) (mutex c) = true) /\
        e = {| thread := getThreadWithId (executor shmTransition);
               conditionVariable := c; enqueue_mutex := m |})
  /\ (forall e : MCCondEnqueue,
        MCRead shmTransition shmData = Read e ->
        mutex (conditionVariable e) = None \/
        MCMutex_eq (Some (enqueue_mutex e)) (mutex (conditionVariable e))
        = true)
  /\ (getConditionVariableWithSystemIdentity (shm_cond shmData) = None ->
      MCRead shmTransition shmData
      = Reported
          "Attempting to wait on a condition variable that is uninitialized").
Proof.
  assert (Hiff : forall e : MCCondEnqueue,
      MCRead shmTransition shmData = Read e <->
      exists (c : MCConditionVariable) (m : MCMutex),
        getConditionVariableWithSystemIdentity (shm_cond shmData) = Some c /\
        getMutexWithSystemIdentity (shm_mutex shmData) = Some m /\
        isDestroyed c = false /\
        (mutex c = None \/ MCMutex_eq (Some m) (mutex c) = true) /\
        e = {| thread := getThreadWithId (executor shmTransition);
               conditionVariable := c; enqueue_mutex := m |}).
  { intros e. unfold MCReadCondEnqueue. split.
    - destruct (getConditionVariableWithSystemIdentity _) as [c|];
        [|discriminate].
      destruct (getMutexWithSystemIdentity _) as [m|]; [|discriminate].
      destruct (isDestroyed c) eqn:D; [discriminate|].
      destruct (mutex c) as [a|] eqn:A.
      + destruct (MCMutex_eq (Some m) (Some a)) eqn:E; [|discriminate].
        intros H. injection H as <-. exists c, m.
        split; [reflexivity|]. split; [reflexivity|]. split; [exact D|].
        split; [|reflexivity].
        right. rewrite A. exact E.
      + intros H. injection H as <-. exists c, m.
        split; [reflexivity|]. split; [reflexivity|]. split; [exact D|].
        split; [|reflexivity].
        left. exact A.
    - intros (c & m & -> & -> & -> & Hm & ->).
      destruct (mutex c) as [a|] eqn:A; [|reflexivity].
      destruct Hm as [Hm | Hm]; [discriminate Hm|].
      rewrite Hm. reflexivity. }
  split; [exact Hiff|]. split.
  - intros e H. apply Hiff in H.
    destruct H as (c & m & _ & _ & _ & Hm & ->). exact Hm.
  - intros H. unfold MCReadCondEnqueue. rewrite H. reflexivity.
Qed.

End CondEnqueueReadFacts.

Section CondEnqueueReadExamples.
Import Transitions CondEnqueueRead.
Local Open Scope Z_scope.

Lemma MCReadCondEnqueue_accepts_witness :
  let m := {| mutex_objid := 3 |} in
  let c := {| cond_objid := 7; mutex := Some m |} in
  let getc := fun a : Z => if a =? 700 then Some c else None in
  let getm := fun a : Z => if a =? 300 then Some m else None in
  let gett := fun i : Z => {| tid := i |} in
  let destroyed := fun _ : MCConditionVariable => false in
  let e := {| thread := {| tid := 1 |}; conditionVariable := c;
              enqueue_mutex := m |} in
  MCReadCondEnqueue getc getm gett destroyed {| executor := 1 |}
    {| shm_cond := 700; shm_mutex := 300 |} = Read e /\
  (mutex (conditionVariable e) = None \/
   MCMutex_eq (Some (enqueue_mutex e)) (mutex (conditionVariable e)) = true).
Proof.
  intros m c getc getm gett destroyed e. split; [reflexivity|].
  exact (proj1 (proj2 (MCReadCondEnqueue_accepts getc getm gett destroyed
                         {| executor := 1 |}
                         {| shm_cond := 700; shm_mutex := 300 |}))
           e eq_refl).
Defined.

End CondEnqueueReadExamples.

(** ** The callbacks and the coordinator, continued *)

Section CallbackFacts.
Import Model Coordinator.
Local Open Scope Z_scope.

Variable invalid_objid : objid_t.

Lemma contains_true_lookup (m : gmap remote_address objid_t)
    (a : remote_address) :
  contains invalid_objid m a = true ->
  exists id, m !! a = Some id /\ id <> invalid_objid /\
             get_model_of invalid_objid m a = id.
Proof.
  unfold contains, get_model_of, get_object_for_remote_process_handle.
  destruct (m !! a) as [id|].
  - rewrite negb_true_iff, Z.eqb_neq. intros H. exists id. auto.
  - rewrite Z.eqb_refl. discriminate.
Qed.

Lemma contains_false_get_model_of (m : gmap remote_address objid_t)
    (a : remote_address) :
  contains invalid_objid m a = false ->
  get_model_of invalid_objid m a = invalid_objid.
Proof.
  unfold contains. rewrite negb_false_iff, Z.eqb_eq. auto.
Qed.

(** X15.  For an address that the map does not contain,
    [mutex_init_callback] builds a mutex-init on the invalid object ID and
    leaves the map as it was: the object is not registered, and a
    mutex-lock or mutex-unlock posted afterwards for the same address is
    still answered with the undefined-behavior error. *)
Theorem mutex_init_callback_registers_nothing (p p' : runner_id_t)
    (rmb : runner_mailbox) (m : gmap remote_address objid_t) :
  contains invalid_objid m (read_pointer rmb) = false ->
  mutex_init_callback invalid_objid p rmb m
  = (Returns (Some (mutex_init p invalid_objid)), m)
  /\ mutex_lock_callback invalid_objid p' rmb
       (snd (mutex_init_callback invalid_objid p rmb m))
     = (Throws (undefined_behavior_exception
                  "Attempting to lock an uninitialized mutex"), m)
  /\ mutex_unlock_callback invalid_objid p' rmb
       (snd (mutex_init_callback invalid_objid p rmb m))
     = (Throws (undefined_behavior_exception
                  "Attempting to lock an uninitialized mutex"), m).
Proof.
  intros H.
  assert (E : mutex_init_callback invalid_objid p rmb m
              = (Returns (Some (mutex_init p invalid_objid)), m)).
  { unfold mutex_init_callback. rewrite H. cbn [negb].
    unfold observe_object, observe_remote_process_handle.
    fold (get_model_of invalid_objid m (read_pointer rmb)).
    rewrite (contains_false_get_model_of m _ H), Z.eqb_refl. cbn [negb snd].
    rewrite (contains_false_get_model_of m _ H). reflexivity. }
  rewrite E. cbn [snd]. split; [reflexivity|].
  unfold mutex_lock_callback, mutex_unlock_callback. rewrite H.
  split; reflexivity.
Qed.

(** X16.  For an address that the map contains, the three mutex callbacks
    return the transition of the executor on the mapped object ID, which is
    not the invalid ID; none of them throws or changes the map. *)
Theorem mutex_callbacks_known_address (p : runner_id_t)
    (rmb : runner_mailbox) (m : gmap remote_address objid_t) :
  contains invalid_objid m (read_pointer rmb) = true ->
  exists id : objid_t,
    m !! read_pointer rmb = Some id /\ id <> invalid_objid /\
    mutex_init_callback invalid_objid p rmb m
    = (Returns (Some (mutex_init p id)), m) /\
    mutex_lock_callback invalid_objid p rmb m
    = (Returns (Some (mutex_lock p id)), m) /\
    mutex_unlock_callback invalid_objid p rmb m
    = (Returns (Some (mutex_unlock p id)), m).
Proof.
  intros H. destruct (contains_true_lookup m _ H) as (id & L & NE & G).
  exists id. split; [exact L|]. split; [exact NE|].
  unfold mutex_init_callback, mutex_lock_callback, mutex_unlock_callback.
  rewrite H. cbn [negb]. rewrite G. repeat split.
Qed.

End CallbackFacts.

Section RegistryFacts.
Import Model Coordinator CallbackShape.
Local Open Scope Z_scope.

Variable invalid_objid : objid_t.
Variable program : Type.
Variable model_executing_runner :
  program -> runner_id_t -> transition -> program.
Variable observe_runner :
  gmap remote_address objid_t -> remote_address -> visible_object_state ->
  (runner_id_t -> transition) -> runner_id_t * gmap remote_address objid_t.
Variables MUTEX_INIT_TYPE MUTEX_LOCK_TYPE MUTEX_UNLOCK_TYPE
          THREAD_CREATE_TYPE THREAD_EXIT_TYPE : Z.

Abbreviation registry :=
  (do_model_checking_registry invalid_objid observe_runner
     MUTEX_INIT_TYPE MUTEX_LOCK_TYPE MUTEX_UNLOCK_TYPE
     THREAD_CREATE_TYPE THREAD_EXIT_TYPE).

Lemma registry_callbacks_well_behaved (rttid : Z)
    (cb : transition_discovery_callback) :
  get_callback_for registry rttid = Some cb -> well_behaved cb.
Proof.
  unfold get_callback_for, do_model_checking_registry, register_transition.
  intros H.
  repeat (rewrite lookup_insert in H; case_decide;
          [injection H as <- | ]).
  - intros p rmb m. left. unfold thread_exit_callback. eauto.
  - intros p rmb m. left. unfold thread_create_callback.
    destruct (observe_runner _ _ _ _). eauto.
  - intros p rmb m. unfold mutex_unlock_callback.
    destruct (contains _ _ _); cbn [negb]; eauto.
  - intros p rmb m. unfold mutex_lock_callback.
    destruct (contains _ _ _); cbn [negb]; eauto.
  - intros p rmb m. left. unfold mutex_init_callback. eauto.
  - rewrite lookup_empty in H. discriminate H.
Qed.

(** X17.  With the callbacks that [do_model_checking] registers, no
    callback returns null: [execute_runner] throws an execution error only
    when there is no live child or the posted tag is not registered, and
    every other error it lets through is an undefined-behavior error. *)
Theorem execute_runner_registered_callbacks (c : coordinator program)
    (runner_id : runner_id_t) :
  runtime_transition_mapping c = registry ->
  ~ callback_returns_null c runner_id
  /\ (forall what,
        fst (execute_runner model_executing_runner c runner_id)
        = Throws (execution_exception what) ->
        no_live_child c \/ unregistered_tag c runner_id)
  /\ (forall e,
        fst (execute_runner model_executing_runner c runner_id) = Throws e ->
        (exists what, e = undefined_behavior_exception what) \/
        no_live_child c \/ unregistered_tag c runner_id).
Proof.
  intros Hreg.
  unfold callback_returns_null, callback_outcome, execute_runner,
    no_live_child, unregistered_tag.
  destruct (current_process_handle c) as [h|] eqn:Hh.
  2:{ split; [intros (m & H); discriminate H|]. split; intros; auto. }
  destruct (get_callback_for (runtime_transition_mapping c) _)
    as [cb|] eqn:Hcb.
  2:{ split; [intros (m & H); discriminate H|].
      split; intros; right; [|right]; eauto. }
  rewrite Hreg in Hcb.
  pose proof (registry_callbacks_well_behaved _ cb Hcb runner_id
                (process_execute_runner h runner_id)
                (system_address_mapping c)) as Hwb.
  destruct Hwb as [(t & m' & ->) | (what' & m' & ->)]; cbn [fst].
  - split; [intros (m & H); discriminate H|].
    split; intros ? H; discriminate H.
  - split; [intros (m & H); discriminate H|].
    split; intros ? H; [discriminate H|].
    injection H as <-. left. eauto.
Qed.

(** X18.  [execute_runner] never changes the registry or the handle of the
    child; when it throws, the program model is the one it started with;
    and when it throws by itself for a dead child or an unregistered tag,
    the whole coordinator is unchanged. *)
Theorem execute_runner_frame (c : coordinator program)
    (runner_id : runner_id_t) :
  let r := execute_runner model_executing_runner c runner_id in
  runtime_transition_mapping (snd r) = runtime_transition_mapping c
  /\ current_process_handle (snd r) = current_process_handle c
  /\ (forall e, fst r = Throws e ->
                current_program_model (snd r) = current_program_model c)
  /\ (no_live_child c \/ unregistered_tag c runner_id -> snd r = c).
Proof.
  unfold execute_runner, no_live_child, unregistered_tag.
  destruct (current_process_handle c) as [h|] eqn:Hh.
  2:{ cbn [snd fst]. rewrite Hh. repeat split. }
  destruct (get_callback_for _ _) as [cb|] eqn:Hcb.
  2:{ cbn [snd fst]. rewrite Hh. repeat split. }
  destruct (cb runner_id _ _) as [[[t|]|e] m']; cbn [snd fst];
    (split; [reflexivity|]); (split; [exact Hh|]); split;
    try (intros ? H; discriminate H); try reflexivity;
    intros [H | (h' & H1 & H2)]; try discriminate H;
    injection H1 as <-; rewrite Hcb in H2; discriminate H2.
Qed.

End RegistryFacts.

Section CallbackExamples.
Import Model Coordinator.
Local Open Scope Z_scope.

Lemma mutex_init_callback_registers_nothing_witness :
  let rmb := {| cnts := [0; 16; 0; 0; 0; 0; 0; 0] |} in
  contains (-1) ∅ (read_pointer rmb) = false /\
  mutex_init_callback (-1) 0 rmb ∅
  = (Returns (Some (mutex_init 0 (-1))), ∅) /\
  mutex_lock_callback (-1) 0 rmb (snd (mutex_init_callback (-1) 0 rmb ∅))
  = (Throws (undefined_behavior_exception
               "Attempting to lock an uninitialized mutex"), ∅).
Proof.
  intros rmb. split; [reflexivity|].
  pose proof (mutex_init_callback_registers_nothing (-1) 0 0 rmb ∅ eq_refl)
    as (H1 & H2 & _).
  split; [exact H1 | exact H2].
Defined.

Lemma mutex_callbacks_known_address_witness :
  let rmb := {| cnts := [1; 16; 0; 0; 0; 0; 0; 0] |} in
  let m : gmap remote_address objid_t := {[ 4097 := 5 ]} in
  contains (-1) m (read_pointer rmb) = true /\
  exists id : objid_t,
    m !! read_pointer rmb = Some id /\ id <> -1 /\
    mutex_init_callback (-1) 0 rmb m
    = (Returns (Some (mutex_init 0 id)), m) /\
    mutex_lock_callback (-1) 0 rmb m
    = (Returns (Some (mutex_lock 0 id)), m) /\
    mutex_unlock_callback (-1) 0 rmb m
    = (Returns (Some (mutex_unlock 0 id)), m).
Proof.
  intros rmb m. split; [reflexivity|].
  exact (mutex_callbacks_known_address (-1) 0 rmb m eq_refl).
Defined.

Lemma execute_runner_registered_callbacks_witness :
  let c := example_coordinator 1 in
  runtime_transition_mapping c
  = do_model_checking_registry (-1) example_observe_runner 0 1 2 3 4 /\
  ~ callback_returns_null c 0.
Proof.
  intros c. split; [reflexivity|].
  exact (proj1 (execute_runner_registered_callbacks (-1) (list transition)
                  example_model_executing_runner example_observe_runner
                  0 1 2 3 4 c 0 eq_refl)).
Defined.

Lemma execute_runner_frame_witness :
  let c := with_address_map (example_coordinator 9) ∅ in
  (no_live_child c \/ unregistered_tag c 0) /\
  snd (execute_runner example_model_executing_runner c 0) = c.
Proof.
  intros c.
  assert (H : no_live_child c \/ unregistered_tag c 0).
  { right. eexists. split; reflexivity. }
  split; [exact H|].
  exact (proj2 (proj2 (proj2 (execute_runner_frame (list transition)
                                example_model_executing_runner c 0))) H).
Defined.

End CallbackExamples.

(** ** The command line, continued *)

Section CliLoopFacts.
Import Cli CliTarget.
Local Open Scope Z_scope.

Variable strtoul : string -> Z.
Variable strtol : string -> Z * string.
Variable stat : string -> bool.
Variable default_config : config.
Variable envp0 : option string.

Abbreviation loop := (Cli.option_loop strtoul strtol envp0).
Abbreviation main :=
  (Cli.main_cpp strtoul strtol stat default_config envp0).

Lemma option_loop_proceeds (n : nat) :
  forall (cur_arg : list string) (cfg cfg' : config) (rest : list string),
    (length cur_arg <= n)%nat ->
    loop cur_arg cfg = Proceeds (cfg', rest) ->
    (exists consumed, cur_arg = consumed ++ rest)
    /\ match rest with
       | [] => True
       | target_executable :: _ => starts_with_dash target_executable = false
       end
    /\ (stop_at_first_deadlock cfg = true ->
        stop_at_first_deadlock cfg' = true)
    /\ (record_target_executable_only cfg = true ->
        record_target_executable_only cfg' = true).
Proof.
  induction n as [|n IH]; intros cur_arg cfg cfg' rest Hlen H.
  - destruct cur_arg; [|simpl in Hlen; lia].
    injection H as <- <-. split; [exists []; reflexivity|]. auto.
  - destruct cur_arg as [|a args].
    { injection H as <- <-. split; [exists []; reflexivity|]. auto. }
    simpl in Hlen. cbn [Cli.option_loop] in H.
    destruct (starts_with_dash a) eqn:D; cbn [negb] in H.
    2:{ injection H as <- <-. split; [exists []; reflexivity|].
        rewrite D. auto. }
    assert (Hstep : forall args' cfg1,
               (length args' <= n)%nat ->
               (exists pre, a :: args = pre ++ args') ->
               (stop_at_first_deadlock cfg = true ->
                stop_at_first_deadlock cfg1 = true) ->
               (record_target_executable_only cfg = true ->
                record_target_executable_only cfg1 = true) ->
               loop args' cfg1 = Proceeds (cfg', rest) ->
               (exists consumed, a :: args = consumed ++ rest)
               /\ match rest with
                  | [] => True
                  | t :: _ => starts_with_dash t = false
                  end
               /\ (stop_at_first_deadlock cfg = true ->
                   stop_at_first_deadlock cfg' = true)
               /\ (record_target_executable_only cfg = true ->
                   record_target_executable_only cfg' = true)).
    { intros args' cfg1 Hl (pre & Hpre) Hs Hr Hrun.
      destruct (IH args' cfg1 cfg' rest Hl Hrun)
        as ((consumed & Hc) & Hhead & Hs' & Hr').
      split; [exists (pre ++ consumed); rewrite Hpre, Hc;
              apply app_assoc|].
      split; [exact Hhead|]. split; auto. }
    destruct (classify a).
    + destruct args as [|v args']; [discriminate H|].
      destruct (strtol v) as [k endptr].
      destruct ((k =? 0) || negb (String.eqb endptr EmptyString));
        [discriminate H|].
      refine (Hstep args' _ _ _ _ _ H);
        [simpl in Hlen; lia | exists [a; v]; reflexivity | auto | auto].
    + destruct args as [|v args']; [discriminate H|].
      refine (Hstep args' _ _ _ _ _ H);
        [simpl in Hlen; lia | exists [a; v]; reflexivity | auto | auto].
    + destruct args as [|v args']; [discriminate H|].
      refine (Hstep (v :: args') _ _ _ _ _ H);
        [lia | exists [a]; reflexivity | auto | auto].
    + refine (Hstep args _ _ _ _ _ H);
        [lia | exists [a]; reflexivity | auto | auto].
    + destruct args as [|v args']; [discriminate H|].
      destruct (strtol v) as [k endptr].
      destruct ((k =? 0) || negb (String.eqb endptr EmptyString));
        [discriminate H|].
      refine (Hstep args' _ _ _ _ _ H);
        [simpl in Hlen; lia | exists [a; v]; reflexivity | auto | auto].
    + destruct (cur_arg_2 envp0 args); [|discriminate H].
      refine (Hstep args _ _ _ _ _ H);
        [lia | exists [a]; reflexivity | auto | auto].
    + discriminate H.
    + discriminate H.
Qed.

(** X19.  When the option loop goes on to the target, what it leaves is a
    suffix of the arguments that is empty or starts with an argument
    without a leading dash, and options only switch flags on: a
    configuration that stops at the first deadlock, or that records, still
    does after the loop. *)
Theorem option_loop_leaves_suffix (cur_arg : list string)
    (cfg cfg' : config) (rest : list string) :
  loop cur_arg cfg = Proceeds (cfg', rest) ->
  (exists consumed, cur_arg = consumed ++ rest)
  /\ match rest with
     | [] => True
     | target_executable :: _ => starts_with_dash target_executable = false
     end
  /\ (stop_at_first_deadlock cfg = true ->
      stop_at_first_deadlock cfg' = true)
  /\ (record_target_executable_only cfg = true ->
      record_target_executable_only cfg' = true).
Proof.
  apply (option_loop_proceeds (length cur_arg)). apply Nat.le_refl.
Qed.

(** X20.  The digits of [-m<digits>] and [-p<digits>] are never read: two
    such options are handled alike.  The value of [-m<digits>] is taken
    from the argument that follows, which stays in place and is handled
    next as an option or as the target. *)
Theorem option_digits_are_ignored :
  (forall (a a' : string) (rest : list string) (cfg : config),
      starts_with_dash a = true -> starts_with_dash a' = true ->
      (classify a = opt_m_digit /\ classify a' = opt_m_digit) \/
      (classify a = opt_p_digit /\ classify a' = opt_p_digit) ->
      loop (a :: rest) cfg = loop (a' :: rest) cfg)
  /\ (forall (a v : string) (rest : list string) (cfg : config),
        starts_with_dash a = true -> classify a = opt_m_digit ->
        loop (a :: v :: rest) cfg
        = loop (v :: rest)
            {| max_thread_execution_depth := strtoul v;
               record_target_executable_only :=
                 record_target_executable_only cfg;
               checkpoint_period := checkpoint_period cfg;
               stop_at_first_deadlock := stop_at_first_deadlock cfg;
               target_trace_id := target_trace_id cfg |}).
Proof.
  split.
  - intros a a' rest cfg D D' [[C C'] | [C C']];
      cbn [Cli.option_loop]; rewrite D, D', C, C'; reflexivity.
  - intros a v rest cfg D C. cbn [Cli.option_loop]. rewrite D, C.
    reflexivity.
Qed.

(** X21.  Arguments after the target executable are not read as options:
    when the first argument has no leading dash and names a file,
    [main_cpp] goes on with the configuration untouched and with the
    target and everything after it. *)
Theorem main_cpp_target_first (argv0 target_executable : string)
    (target_args : list string) :
  starts_with_dash target_executable = false ->
  stat target_executable = true ->
  main (argv0 :: target_executable :: target_args)
  = Proceeds (default_config, target_executable :: target_args).
Proof.
  intros D S. unfold Cli.main_cpp.
  assert (E : (Z.of_nat (length (argv0 :: target_executable :: target_args))
               =? 1) = false) by (apply Z.eqb_neq; simpl length; lia).
  rewrite E. cbn [Cli.option_loop]. rewrite D. cbn [negb]. rewrite S.
  reflexivity.
Qed.

(** X22.  An option whose branch reads the next argument, given as the
    last argument, makes [main_cpp] pass a null pointer to the number
    parser instead of printing a message.  [-p<digits>] reads the argument
    after the next one: with exactly one argument after it that pointer is
    the terminator of [argv]; as the last argument it parses the word
    stored after the terminator, which crashes when that word is null and
    otherwise ends in the message about the missing target. *)
Theorem main_cpp_missing_value :
  (forall (argv0 a : string),
      starts_with_dash a = true -> reads_next (classify a) = true ->
      main [argv0; a] = Crashes)
  /\ (forall (argv0 a v : string),
        starts_with_dash a = true -> classify a = opt_p_digit ->
        main [argv0; a; v] = Crashes)
  /\ (forall (argv0 a : string),
        starts_with_dash a = true -> classify a = opt_p_digit ->
        main [argv0; a]
        = match envp0 with
          | Some _ => Exits 1 [(stderr, missing_target)]
          | None => Crashes
          end).
Proof.
  split; [|split].
  - intros argv0 a D T. unfold Cli.main_cpp.
    change (Z.of_nat (length [argv0; a]) =? 1) with false.
    cbn [Cli.option_loop]. rewrite D. cbn [negb].
    destruct (classify a); try discriminate T; reflexivity.
  - intros argv0 a v D C. unfold Cli.main_cpp.
    change (Z.of_nat (length [argv0; a; v]) =? 1) with false.
    cbn [Cli.option_loop]. rewrite D, C. reflexivity.
  - intros argv0 a D C. unfold Cli.main_cpp.
    change (Z.of_nat (length [argv0; a]) =? 1) with false.
    cbn [Cli.option_loop]. rewrite D, C. cbn [negb cur_arg_2].
    destruct envp0; reflexivity.
Qed.

End CliLoopFacts.

Section CliTargetFacts.
Import Cli CliTarget.
Local Open Scope Z_scope.

Variable char_is_signed : bool.
Variable outside : Z -> option string.

Abbreviation run := (CliTarget.main_cpp_run char_is_signed outside).
Abbreviation idx_of := (CliTarget.self_check_idx char_is_signed).

Lemma string_drop_app (a b : string) :
  string_drop (String.length a) (a +:+ b) = b.
Proof. induction a as [|c a IH]; [reflexivity | exact IH]. Qed.

Lemma string_length_app (a b : string) :
  String.length (a +:+ b) = (String.length a + String.length b)%nat.
Proof. induction a as [|c a IH]; [reflexivity | simpl; now rewrite IH]. Qed.

Lemma self_check_idx_long (n : nat) (s : string) :
  String.length s = (n + 7)%nat -> (n <= 127)%nat ->
  idx_of s = Z.of_nat n.
Proof.
  intros Hl Hn. unfold self_check_idx, to_char. rewrite Hl.
  replace (Z.of_nat (n + 7) - 6 - 1) with (Z.of_nat n) by lia.
  rewrite (Z.mod_small (Z.of_nat n) (2 ^ 64)) by lia.
  destruct (Z.leb_spec 0 (Z.of_nat n)); [|lia].
  destruct char_is_signed; rewrite Z.mod_small by lia; lia.
Qed.

(** For a name of fewer than 7 characters the difference wraps around in
    [size_t]; its low byte is negative as a signed [char]. *)
Lemma self_check_idx_short (s : string) :
  (String.length s < 7)%nat ->
  idx_of s = if char_is_signed
             then Z.of_nat (String.length s) - 7
             else Z.of_nat (String.length s) + 249.
Proof.
  intros Hl. unfold self_check_idx, to_char.
  set (n := String.length s) in *.
  assert (E : (Z.of_nat n - 6 - 1) mod 2 ^ 64 = 2 ^ 64 + Z.of_nat n - 7).
  { symmetry. apply (Z.mod_unique _ _ (-1)); lia. }
  rewrite E. destruct (Z.leb_spec 0 (2 ^ 64 + Z.of_nat n - 7)); [|lia].
  destruct char_is_signed.
  - assert (E2 : (2 ^ 64 + Z.of_nat n - 7 + 128) mod 256
                 = Z.of_nat n + 121).
    { symmetry. apply (Z.mod_unique _ _ (2 ^ 56)); lia. }
    rewrite E2. lia.
  - symmetry. apply (Z.mod_unique _ _ (2 ^ 56 - 1)); lia.
Qed.

Lemma string_eqb_shorter (a b : string) :
  (String.length a < String.length b)%nat -> String.eqb a b = false.
Proof.
  intros H. destruct (String.eqb_spec a b) as [-> | _]; [lia | reflexivity].
Qed.

(** X23.  [main_cpp] refuses to check itself: a target named [mcmini], or
    a path of at most 134 characters that ends in [/mcmini], gets the
    message and exit code 1.  A target of 7 to 134 characters that does
    not end in [/mcmini] is handed to [do_recording] when the record flag
    is set and to [do_model_checking] otherwise.  For a target of fewer
    than 7 characters other than [mcmini], the comparison is made on the
    bytes found outside the name: before it where [char] is signed, after
    it where it is not.  Where [char] is signed and the string found there
    has fewer than 7 characters, as when the byte before the name ends the
    preceding argument, the target is handed over as well. *)
Theorem main_cpp_run_self_check (cfg : config) (rest : list string) :
  run cfg ("mcmini"%string :: rest) = Exits 1 [(stderr, called_on_mcmini)]
  /\ (forall dir : string,
        (String.length dir <= 127)%nat ->
        run cfg ((dir +:+ "/mcmini") :: rest)
        = Exits 1 [(stderr, called_on_mcmini)])
  /\ (forall target_executable : string,
        (7 <= String.length target_executable <= 134)%nat ->
        string_drop (String.length target_executable - 7) target_executable
        <> "/mcmini"%string ->
        run cfg (target_executable :: rest)
        = Proceeds (if record_target_executable_only cfg
                    then do_recording cfg target_executable
                    else do_model_checking cfg target_executable))
  /\ (forall target_executable : string,
        (String.length target_executable < 7)%nat ->
        target_executable <> "mcmini"%string ->
        run cfg (target_executable :: rest)
        = match outside
                  (if char_is_signed
                   then Z.of_nat (String.length target_executable) - 7
                   else Z.of_nat (String.length target_executable) + 249)
          with
          | None => Crashes
          | Some tail =>
              if String.eqb tail "/mcmini"
              then Exits 1 [(stderr, called_on_mcmini)]
              else Proceeds (if record_target_executable_only cfg
                             then do_recording cfg target_executable
                             else do_model_checking cfg target_executable)
          end)
  /\ (forall target_executable tail : string,
        (String.length target_executable < 7)%nat ->
        target_executable <> "mcmini"%string ->
        char_is_signed = true ->
        outside (Z.of_nat (String.length target_executable) - 7)
        = Some tail ->
        (String.length tail < 7)%nat ->
        run cfg (target_executable :: rest)
        = Proceeds (if record_target_executable_only cfg
                    then do_recording cfg target_executable
                    else do_model_checking cfg target_executable)).
Proof.
  assert (Hshort : forall t : string,
             (String.length t < 7)%nat -> t <> "mcmini"%string ->
             run cfg (t :: rest)
             = match outside
                       (if char_is_signed
                        then Z.of_nat (String.length t) - 7
                        else Z.of_nat (String.length t) + 249)
               with
               | None => Crashes
               | Some tail =>
                   if String.eqb tail "/mcmini"
                   then Exits 1 [(stderr, called_on_mcmini)]
                   else Proceeds (if record_target_executable_only cfg
                                  then do_recording cfg t
                                  else do_model_checking cfg t)
               end).
  { intros t Hl Hne. unfold main_cpp_run.
    destruct (String.eqb_spec t "mcmini") as [E | _]; [contradiction|].
    rewrite (self_check_idx_short t Hl). unfold string_at.
    destruct char_is_signed.
    - destruct (Z.leb_spec 0 (Z.of_nat (String.length t) - 7)); [lia|].
      reflexivity.
    - destruct (Z.leb_spec (Z.of_nat (String.length t) + 249)
                  (Z.of_nat (String.length t))); [lia|].
      rewrite andb_false_r. reflexivity. }
  split; [reflexivity|]. split; [|split; [|split]].
  - intros dir Hd. unfold main_cpp_run.
    destruct (String.eqb (dir +:+ "/mcmini") "mcmini"); [reflexivity|].
    rewrite (self_check_idx_long (String.length dir));
      [| rewrite string_length_app; reflexivity | exact Hd].
    unfold string_at. rewrite string_length_app.
    destruct (Z.leb_spec 0 (Z.of_nat (String.length dir))); [|lia].
    destruct (Z.leb_spec (Z.of_nat (String.length dir))
                (Z.of_nat (String.length dir + String.length "/mcmini")));
      [|lia].
    cbn [andb]. rewrite Nat2Z.id, string_drop_app. reflexivity.
  - intros t Hl Hne. unfold main_cpp_run.
    destruct (String.eqb_spec t "mcmini") as [-> | _];
      [simpl in Hl; lia|].
    rewrite (self_check_idx_long (String.length t - 7)) by lia.
    unfold string_at.
    destruct (Z.leb_spec 0 (Z.of_nat (String.length t - 7))); [|lia].
    destruct (Z.leb_spec (Z.of_nat (String.length t - 7))
                (Z.of_nat (String.length t))); [|lia].
    cbn [andb]. rewrite Nat2Z.id.
    destruct (String.eqb_spec (string_drop (String.length t - 7) t)
                "/mcmini") as [E | _]; [contradiction|].
    reflexivity.
  - exact Hshort.
  - intros t tail Hl Hne Hs Ho Ht.
    rewrite (Hshort t Hl Hne), Hs, Ho.
    rewrite (string_eqb_shorter tail "/mcmini") by exact Ht.
    reflexivity.
Qed.

End CliTargetFacts.

Section CliTargetExamples.
Import Cli CliTarget.
Local Open Scope Z_scope.

Lemma main_cpp_run_self_check_witness :
  ((String.length "/usr/bin" <= 127)%nat /\
   main_cpp_run true example_outside example_config
     ["/usr/bin/mcmini"%string]
   = Exits 1 [(stderr, called_on_mcmini)])
  /\ (((7 <= String.length "./a.out" <= 134)%nat /\
       string_drop (String.length "./a.out" - 7) "./a.out"
       <> "/mcmini"%string) /\
      main_cpp_run true example_outside example_config ["./a.out"%string]
      = Proceeds (do_model_checking example_config "./a.out"))
  /\ (((String.length "a.out" < 7)%nat /\
       "a.out"%string <> "mcmini"%string /\
       true = true /\
       example_outside (Z.of_nat (String.length "a.out") - 7)
       = Some "i"%string /\
       (String.length "i" < 7)%nat) /\
      main_cpp_run true example_outside example_config ["a.out"%string]
      = Proceeds (do_model_checking example_config "a.out")).
Proof.
  pose proof (main_cpp_run_self_check true example_outside example_config
                [])
    as (_ & Hdir & Hrun & _ & Hshort).
  assert (H1 : (String.length "/usr/bin" <= 127)%nat) by (simpl; lia).
  assert (H2 : (7 <= String.length "./a.out" <= 134)%nat) by (simpl; lia).
  assert (H3 : string_drop (String.length "./a.out" - 7) "./a.out"
               <> "/mcmini"%string) by discriminate.
  assert (H4 : (String.length "a.out" < 7)%nat) by (simpl; lia).
  assert (H5 : "a.out"%string <> "mcmini"%string) by discriminate.
  assert (H6 : example_outside (Z.of_nat (String.length "a.out") - 7)
               = Some "i"%string) by reflexivity.
  assert (H7 : (String.length "i" < 7)%nat) by (simpl; lia).
  split; [split; [exact H1 | exact (Hdir "/usr/bin"%string H1)]|].
  split; [split; [split; assumption | exact (Hrun "./a.out"%string H2 H3)]|].
  split.
  - split; [exact H4|]. split; [exact H5|]. split; [reflexivity|].
    split; [exact H6 | exact H7].
  - exact (Hshort "a.out"%string "i"%string H4 H5 eq_refl H6 H7).
Defined.

End CliTargetExamples.

Section CliLoopExamples.
Import Cli CliTarget.
Local Open Scope Z_scope.

Abbreviation example_loop :=
  (Cli.option_loop example_strtoul example_strtol example_envp0).
Abbreviation example_main :=
  (Cli.main_cpp example_strtoul example_strtol example_stat example_config
                example_envp0).

Lemma option_loop_leaves_suffix_witness :
  let cfg' := {| max_thread_execution_depth := 0;
                 record_target_executable_only := true;
                 checkpoint_period := 0;
                 stop_at_first_deadlock := true;
                 target_trace_id := 0 |} in
  example_loop ["-f"; "-r"; "5"; "./a.out"; "-h"]%string example_config
  = Proceeds (cfg', ["./a.out"; "-h"]%string) /\
  (exists consumed,
      ["-f"; "-r"; "5"; "./a.out"; "-h"]%string
      = consumed ++ ["./a.out"; "-h"]%string) /\
  starts_with_dash "./a.out" = false.
Proof.
  intros cfg'.
  pose proof (option_loop_leaves_suffix example_strtoul example_strtol
                example_envp0
                ["-f"; "-r"; "5"; "./a.out"; "-h"]%string example_config
                cfg' ["./a.out"; "-h"]%string eq_refl) as (H1 & H2 & _).
  split; [reflexivity|]. split; [exact H1 | exact H2].
Defined.

Lemma option_digits_are_ignored_witness :
  (starts_with_dash "-m5" = true /\ starts_with_dash "-m9" = true /\
   classify "-m5" = opt_m_digit /\ classify "-m9" = opt_m_digit) /\
  example_loop ["-m5"; "./a.out"]%string example_config
  = example_loop ["-m9"; "./a.out"]%string example_config.
Proof.
  split; [repeat split|].
  exact (proj1 (option_digits_are_ignored example_strtoul example_strtol
                  example_envp0)
           "-m5"%string "-m9"%string ["./a.out"%string] example_config
           eq_refl eq_refl (or_introl (conj eq_refl eq_refl))).
Defined.

Lemma main_cpp_target_first_witness :
  (starts_with_dash "./a.out" = false /\
   (fun _ : string => true) "./a.out"%string = true) /\
  Cli.main_cpp example_strtoul example_strtol (fun _ => true) example_config
    example_envp0 ["mcmini"; "./a.out"; "--help"]%string
  = Proceeds (example_config, ["./a.out"; "--help"]%string).
Proof.
  split; [split; reflexivity|].
  exact (main_cpp_target_first example_strtoul example_strtol
           (fun _ => true) example_config example_envp0
           "mcmini"%string "./a.out"%string
           ["--help"%string] eq_refl eq_refl).
Defined.

Lemma main_cpp_missing_value_witness :
  ((starts_with_dash "-r" = true /\ reads_next (classify "-r") = true) /\
   example_main ["mcmini"; "-r"]%string = Crashes)
  /\ ((starts_with_dash "-p1" = true /\ classify "-p1" = opt_p_digit) /\
      example_main ["mcmini"; "-p1"; "5"]%string = Crashes /\
      example_main ["mcmini"; "-p1"]%string
      = Exits 1 [(stderr, missing_target)]).
Proof.
  pose proof (main_cpp_missing_value example_strtoul example_strtol
                example_stat example_config example_envp0)
    as (Hnext & Hone & Hlast).
  split.
  - split; [split; reflexivity|].
    exact (Hnext "mcmini"%string "-r"%string eq_refl eq_refl).
  - split; [split; reflexivity|]. split.
    + exact (Hone "mcmini"%string "-p1"%string "5"%string eq_refl eq_refl).
    + exact (Hlast "mcmini"%string "-p1"%string eq_refl eq_refl).
Defined.

End CliLoopExamples.

(** ** The methods of the cond-enqueue, continued *)

Section CondEnqueueMethodFacts.
Import Transitions.

Variable K : MCTransition -> MCTransition -> bool.

(** X24.  Against another cond-enqueue the two methods are complementary:
    dependent and not co-enabled on the same condition variable,
    independent and co-enabled on different ones.  Against any other
    transition on a condition variable the cond-enqueue is dependent
    exactly when the condition variable is the same, and co-enabled in
    every case; against a thread transition it is independent and
    co-enabled.  This holds whatever [transitionsCoenabledCommon]
    computes. *)
Theorem MCCondEnqueue_against_cond_and_thread (e : MCCondEnqueue) :
  (forall e' : MCCondEnqueue,
      MCCondEnqueue_dependentWith K e (MCCondEnqueueTransition e')
      = negb (MCCondEnqueue_coenabledWith K e (MCCondEnqueueTransition e'))
      /\ (MCCondEnqueue_dependentWith K e (MCCondEnqueueTransition e') = true
          <-> cond_objid (conditionVariable e')
              = cond_objid (conditionVariable e)))
  /\ (forall (th : MCThread) (c : MCConditionVariable),
        MCCondEnqueue_coenabledWith K e (MCCondTransition th c) = true /\
        (MCCondEnqueue_dependentWith K e (MCCondTransition th c) = true
         <-> cond_objid c = cond_objid (conditionVariable e)))
  /\ (forall (v : thread_variant) (th tgt : MCThread),
        MCCondEnqueue_dependentWith K e (MCThreadTransition v th tgt) = false
        /\ MCCondEnqueue_coenabledWith K e (MCThreadTransition v th tgt)
           = true).
Proof.
  split; [|split].
  - intros e'. cbn [MCCondEnqueue_dependentWith MCCondEnqueue_coenabledWith].
    rewrite negb_involutive. split; [reflexivity|].
    unfold MCConditionVariable_eq. apply Z.eqb_eq.
  - intros th c. split; [reflexivity|].
    cbn [MCCondEnqueue_dependentWith].
    unfold MCConditionVariable_eq. apply Z.eqb_eq.
  - intros v th tgt. split; reflexivity.
Qed.

(** X25.  Neither method reads the mutex of the cond-enqueue itself: the
    unlock they hand to [transitionsCoenabledCommon] is on the mutex
    associated with the condition variable, so two cond-enqueues of the
    same thread on the same condition variable answer alike whatever
    mutex each was made with, and before the first enqueue is applied the
    unlock is on a null mutex. *)
Theorem MCCondEnqueue_ignores_own_mutex (e : MCCondEnqueue)
    (m' : MCMutex) (other : MCTransition) :
  let e' := {| thread := thread e;
               conditionVariable := conditionVariable e;
               enqueue_mutex := m' |} in
  MCCondEnqueue_dependentWith K e' other
  = MCCondEnqueue_dependentWith K e other
  /\ MCCondEnqueue_coenabledWith K e' other
     = MCCondEnqueue_coenabledWith K e other
  /\ (mutex (conditionVariable e) = None ->
      forall (v : mutex_variant) (th : MCThread) (m : option MCMutex),
        MCCondEnqueue_coenabledWith K e (MCMutexTransition v th m)
        = K (MCMutexUnlock (thread e) None) (MCMutexTransition v th m)).
Proof.
  split; [|split].
  - destruct other; reflexivity.
  - destruct other; reflexivity.
  - intros H v th m. cbn [MCCondEnqueue_coenabledWith]. rewrite H.
    reflexivity.
Qed.

End CondEnqueueMethodFacts.

Section CondEnqueueMethodExamples.
Import Transitions.

Lemma MCCondEnqueue_against_cond_and_thread_witness :
  let e := {| thread := {| tid := 1 |};
              conditionVariable := {| cond_objid := 7; mutex := None |};
              enqueue_mutex := {| mutex_objid := 3 |} |} in
  let e' := {| thread := {| tid := 2 |};
               conditionVariable := {| cond_objid := 7; mutex := None |};
               enqueue_mutex := {| mutex_objid := 4 |} |} in
  cond_objid (conditionVariable e') = cond_objid (conditionVariable e) /\
  MCCondEnqueue_dependentWith pair_coenabled e (MCCondEnqueueTransition e')
  = true.
Proof.
  intros e e'. split; [reflexivity|].
  exact (proj2 (proj2 (proj1 (MCCondEnqueue_against_cond_and_thread
                                pair_coenabled e) e'))
           eq_refl).
Defined.

Lemma MCCondEnqueue_ignores_own_mutex_witness :
  let e := {| thread := {| tid := 1 |};
              conditionVariable := {| cond_objid := 7; mutex := None |};
              enqueue_mutex := {| mutex_objid := 3 |} |} in
  let t := MCMutexTransition mutex_lock {| tid := 2 |}
             (Some {| mutex_objid := 3 |}) in
  mutex (conditionVariable e) = None /\
  MCCondEnqueue_coenabledWith pair_coenabled e t
  = pair_coenabled (MCMutexUnlock (thread e) None) t.
Proof.
  intros e t. split; [reflexivity|].
  exact (proj2 (proj2 (MCCondEnqueue_ignores_own_mutex pair_coenabled e
                         {| mutex_objid := 3 |} t))
           eq_refl mutex_lock {| tid := 2 |} (Some {| mutex_objid := 3 |})).
Defined.

End CondEnqueueMethodExamples.

(** ** The option loop composes *)

Section CliComposeFacts.
Import Cli.
Local Open Scope Z_scope.

Variable strtoul : string -> Z.
Variable strtol : string -> Z * string.
Variable envp0 : option string.

Abbreviation oloop := (Cli.option_loop strtoul strtol envp0).

(** X26.  The option loop composes: when a list of options is read to its
    end without a look past the terminator of [argv], reading it followed
    by more arguments is reading those arguments with the configuration
    the options gave.  Hence [--help] or [-h] after any options that are
    read to their end prints the usage text and exits with code 1, and so
    does an unrecognized option there. *)
Theorem option_loop_composes (options rest : list string)
    (cfg cfg' : config) :
  Cli.option_loop strtoul strtol None options cfg = Proceeds (cfg', []) ->
  oloop (options ++ rest) cfg = oloop rest cfg'
  /\ (forall a : string,
        a = "--help"%string \/ a = "-h"%string ->
        oloop (options ++ a :: rest) cfg = Exits 1 [(stderr, usage)])
  /\ (forall a : string,
        starts_with_dash a = true -> classify a = opt_unrecognized ->
        oloop (options ++ a :: rest) cfg
        = Exits 1 [(stdout, unrecognized_option a)]).
Proof.
  intros H.
  assert (Happ : forall rest', oloop (options ++ rest') cfg
                               = oloop rest' cfg').
  { intros rest'.
    apply (option_loop_app strtoul strtol envp0 (length options));
      [apply Nat.le_refl | exact H]. }
  split; [apply Happ|]. split.
  - intros a [-> | ->]; rewrite Happ; reflexivity.
  - intros a D C. rewrite Happ. cbn [Cli.option_loop]. rewrite D, C.
    reflexivity.
Qed.

End CliComposeFacts.

Section CliComposeExamples.
Import Cli.
Local Open Scope Z_scope.

Lemma option_loop_composes_witness :
  let cfg' := {| max_thread_execution_depth := 0;
                 record_target_executable_only := true;
                 checkpoint_period := 0;
                 stop_at_first_deadlock := true;
                 target_trace_id := 0 |} in
  Cli.option_loop example_strtoul example_strtol None
    ["-f"; "-r"; "5"]%string example_config = Proceeds (cfg', []) /\
  Cli.option_loop example_strtoul example_strtol example_envp0
    (["-f"; "-r"; "5"]%string ++ ["-h"; "./a.out"]%string) example_config
  = Exits 1 [(stderr, usage)].
Proof.
  intros cfg'. split; [reflexivity|].
  exact (proj1 (proj2 (option_loop_composes example_strtoul example_strtol
                         example_envp0
                         ["-f"; "-r"; "5"]%string ["./a.out"%string]
                         example_config cfg' eq_refl))
           "-h"%string (or_intror eq_refl)).
Defined.

End CliComposeExamples.
